(** * MegFaceAnimate: inference utilities ([animate/utils/util.py])

    A shallow embedding of the tensor interpolation, DDIM inversion,
    checkpoint merging, face-crop geometry and video-export helpers of
    [util.py], together with the properties stated about them.

    Conventions.
    - Python exceptions are values of [exn]; a fallible computation has
      type [result A] and is sequenced with [x ← c; k].
    - Floating-point scalars and tensors are kept abstract behind the
      [TensorOps] interface, so every theorem about [slerp], [next_step]
      and [ddim_loop] holds for any interpretation of the arithmetic.
    - Pixel coordinates are rationals ([Q]); [//] is floor division and
      [int(.)] truncates toward zero. *)

From Stdlib Require Import ZArith QArith Qround Qminmax Lqa Lia.
From Stdlib Require Import Reals Lra.
From stdpp Require Import base option list strings gmap.

Local Open Scope Z_scope.

(** ** Exceptions and the error monad *)

Inductive exn : Type :=
| IndexError
| ZeroDivisionError
| TypeError
| AssertionError
| RuntimeError
| NameError.

Inductive result (A : Type) : Type :=
| Ok (a : A)
| Raise (e : exn).
Arguments Ok {A} a.
Arguments Raise {A} e.

Definition rbind {A B : Type} (c : result A) (k : A -> result B) : result B :=
  match c with
  | Ok a => k a
  | Raise e => Raise e
  end.

#[global] Instance result_bind : MBind result := fun A B k c => rbind c k.
#[global] Instance result_ret : MRet result := @Ok.

Definition py_assert (b : bool) : result unit :=
  if b then Ok tt else Raise AssertionError.

(** ** Python sequence indexing and slicing *)

(** [l[i]]: a negative index counts from the end; out of range raises. *)
Definition py_index {A : Type} (l : list A) (i : Z) : result A :=
  let n := Z.of_nat (length l) in
  let j := if i <? 0 then i + n else i in
  if (j <? 0) || (n <=? j) then Raise IndexError
  else match l !! Z.to_nat j with
       | Some x => Ok x
       | None => Raise IndexError
       end.

(** [a // b] on integers. *)
Definition py_floordiv (a : Z) (b : option Z) : result Z :=
  match b with
  | None => Raise TypeError
  | Some b => if b =? 0 then Raise ZeroDivisionError else Ok (a / b)
  end.

(** Normalisation of one bound of a slice [a:b] against a dimension [n]. *)
Definition slice_bound (n : nat) (a : Z) : nat :=
  let n' := Z.of_nat n in
  Z.to_nat (if a <? 0 then Z.max (a + n') 0 else Z.min a n').

(** [l[a:b]] *)
Definition py_slice {A : Type} (l : list A) (a b : Z) : list A :=
  let a' := slice_bound (length l) a in
  let b' := slice_bound (length l) b in
  take (b' - a') (drop a' l).

(** ** Scalar and tensor arithmetic *)

Class TensorOps (S T : Type) : Type := {
  s_lit : Q -> S;                 (* a float literal *)
  s_sub : S -> S -> S;
  s_mul : S -> S -> S;
  s_abs : S -> S;
  s_gtb : S -> S -> bool;
  s_pow_half : S -> S;            (* [x ** 0.5] *)
  s_acos : S -> S;
  s_sin : S -> S;
  t_norm : T -> S;                (* [v.norm()] *)
  t_sum : T -> S;                 (* [v.sum()] *)
  t_mul : T -> T -> T;            (* elementwise [u * v] *)
  t_add : T -> T -> T;
  t_sub : T -> T -> T;
  t_scale : S -> T -> T;          (* scalar [a * v] *)
  t_div : T -> S -> T             (* [v / a] *)
}.

Section Interpolation.
Context {S T : Type} `{TensorOps S T}.

Definition linear (v1 v2 : T) (t : S) : T :=
  t_add (t_scale (s_sub (s_lit 1) t) v1) (t_scale t v2).

Definition DOT_THRESHOLD : S := s_lit (9995 # 10000).

Definition slerp_with (v0 v1 : T) (t : S) (threshold : S) : T :=
  let u0 := t_div v0 (t_norm v0) in
  let u1 := t_div v1 (t_norm v1) in
  let dot := t_sum (t_mul u0 u1) in
  if s_gtb (s_abs dot) threshold then
    t_add (t_scale (s_sub (s_lit 1) t) v0) (t_scale t v1)
  else
    let omega := s_acos dot in
    t_div (t_add (t_scale (s_sin (s_mul (s_sub (s_lit 1) t) omega)) v0)
                 (t_scale (s_sin (s_mul t omega)) v1))
          (s_sin omega).

Definition slerp (v0 v1 : T) (t : S) : T := slerp_with v0 v1 t DOT_THRESHOLD.

(** The dot product of the unit-normalised vectors, as [slerp] computes it. *)
Definition unit_dot (v0 v1 : T) : S :=
  t_sum (t_mul (t_div v0 (t_norm v0)) (t_div v1 (t_norm v1))).

(** The process-wide interpolation mode. *)
Inductive interpolation : Type := Slerp | Linear.

Definition set_tensor_interpolation_method (is_slerp : bool) : interpolation :=
  if is_slerp then Slerp else Linear.

Definition run_interpolation (m : interpolation) : T -> T -> S -> T :=
  match m with
  | Slerp => slerp
  | Linear => linear
  end.
End Interpolation.

(** ** DDIM inversion *)

Section DDIM.
Context {S T : Type} `{TensorOps S T}.
Context {Emb : Type}.   (* text embeddings *)

Record scheduler : Type := {
  num_train_timesteps : Z;
  num_inference_steps : option Z;
  alphas_cumprod : list S;
  final_alpha_cumprod : S;
  timesteps : list Z
}.

Record pipeline : Type := {
  encode_prompt : string -> Emb;        (* tokenizer followed by text encoder *)
  unet : T -> Z -> Emb -> T             (* the ["sample"] of the network output *)
}.

(** [context = cat([uncond, text])]; [chunk(2)] gives the pair back. *)
Definition init_prompt (prompt : string) (p : pipeline) : Emb * Emb :=
  (encode_prompt p "", encode_prompt p prompt).

Definition next_step (model_output : T) (timestep : Z) (sample : T)
    (ddim_scheduler : scheduler) : result T :=
  k ← py_floordiv (num_train_timesteps ddim_scheduler)
                   (num_inference_steps ddim_scheduler);
  let '(timestep, next_timestep) := (Z.min (timestep - k) 999, timestep) in
  alpha_prod_t ←
    (if 0 <=? timestep then py_index (alphas_cumprod ddim_scheduler) timestep
     else Ok (final_alpha_cumprod ddim_scheduler));
  alpha_prod_t_next ← py_index (alphas_cumprod ddim_scheduler) next_timestep;
  let beta_prod_t := s_sub (s_lit 1) alpha_prod_t in
  let next_original_sample :=
    t_div (t_sub sample (t_scale (s_pow_half beta_prod_t) model_output))
          (s_pow_half alpha_prod_t) in
  let next_sample_direction :=
    t_scale (s_pow_half (s_sub (s_lit 1) alpha_prod_t_next)) model_output in
  let next_sample :=
    t_add (t_scale (s_pow_half alpha_prod_t_next) next_original_sample)
          next_sample_direction in
  Ok next_sample.

Definition get_noise_pred_single (latents : T) (t : Z) (context : Emb)
    (net : T -> Z -> Emb -> T) : T :=
  net latents t context.

(** The body of the [for i in range(num_inv_steps)] loop, over the
    remaining indices. *)
Fixpoint ddim_iter (p : pipeline) (ddim_scheduler : scheduler)
    (cond_embeddings : Emb) (idx : list nat) (latent : T)
    (all_latent : list T) : result (list T) :=
  match idx with
  | [] => Ok all_latent
  | i :: idx' =>
      t ← py_index (timesteps ddim_scheduler)
             (Z.of_nat (length (timesteps ddim_scheduler)) - Z.of_nat i - 1);
      let noise_pred := get_noise_pred_single latent t cond_embeddings (unet p) in
      latent' ← next_step noise_pred t latent ddim_scheduler;
      ddim_iter p ddim_scheduler cond_embeddings idx' latent'
                (all_latent ++ [latent'])
  end.

Definition ddim_loop (p : pipeline) (ddim_scheduler : scheduler) (latent : T)
    (num_inv_steps : nat) (prompt : string) : result (list T) :=
  let '(uncond_embeddings, cond_embeddings) := init_prompt prompt p in
  let all_latent := [latent] in
  ddim_iter p ddim_scheduler cond_embeddings (seq 0 num_inv_steps) latent all_latent.

Definition ddim_inversion (p : pipeline) (ddim_scheduler : scheduler)
    (video_latent : T) (num_inv_steps : nat) (prompt : string) : result (list T) :=
  ddim_loop p ddim_scheduler video_latent num_inv_steps prompt.

(** The recurrence of the specification: with [t' = min(t - T // n, 999)],
    [a' = alpha(t')] (the final value when [t' < 0]) and [a = alpha(t)],
    the next latent is
    [sqrt a * ((sample - sqrt (1 - a') * noise) / sqrt a') + sqrt (1 - a) * noise]. *)
Definition ddim_recurrence (a a' : S) (noise sample : T) : T :=
  t_add (t_scale (s_pow_half a)
           (t_div (t_sub sample (t_scale (s_pow_half (s_sub (s_lit 1) a')) noise))
                  (s_pow_half a')))
        (t_scale (s_pow_half (s_sub (s_lit 1) a)) noise).

Definition alpha_at (sch : scheduler) (t : Z) : result S :=
  if t <? 0 then Ok (final_alpha_cumprod sch)
  else py_index (alphas_cumprod sch) t.

Definition next_step_spec (noise : T) (t : Z) (sample : T) (sch : scheduler)
    : result T :=
  step ← py_floordiv (num_train_timesteps sch) (num_inference_steps sch);
  let t' := Z.min (t - step) 999 in
  a' ← alpha_at sch t';
  a ← py_index (alphas_cumprod sch) t;
  Ok (ddim_recurrence a a' noise sample).

(** A schedule on which every lookup of the inversion loop succeeds. *)
Definition lookup_ok (sch : scheduler) (step t : Z) : Prop :=
  let n := Z.of_nat (length (alphas_cumprod sch)) in
  -n <= t < n /\ Z.min (t - step) 999 < n.

Definition schedule_ok (sch : scheduler) : Prop :=
  exists n, num_inference_steps sch = Some n /\ n <> 0 /\
    Forall (lookup_ok sch (num_train_timesteps sch / n)) (timesteps sch).
End DDIM.

Arguments scheduler S : clear implicits.
Arguments pipeline T Emb : clear implicits.

(** ** Checkpoint merging *)

(** [needle in s] on strings. *)
Fixpoint contains (needle s : string) : bool :=
  String.prefix needle s ||
  match s with
  | EmptyString => false
  | String _ s' => contains needle s'
  end.

(** [s.endswith(suffix)] *)
Definition ends_with (suffix s : string) : bool :=
  let n := String.length s in
  let m := String.length suffix in
  (m <=? n)%nat && String.eqb (String.substring (n - m) m s) suffix.

Section Merge.
Variable tensor : Type.      (* a parameter tensor *)
Variable ldm_ckpt : Type.    (* a raw full-model (dreambooth) checkpoint *)
Variable lora_ckpt : Type.   (* a LoRA safetensors dictionary *)
Variable text_model : Type.  (* a text encoder *)
Variable scale : Type.       (* a LoRA scale factor *)

(** What [torch.load] returns for a motion-module or motion-LoRA file:
    a dictionary with a ["state_dict"] entry holding the weights, or the
    weights themselves. *)
Inductive checkpoint : Type :=
| Wrapped (sd : gmap string tensor)
| Bare (sd : gmap string tensor).

(** [ckpt["state_dict"] if "state_dict" in ckpt else ckpt] *)
Definition unwrap_state_dict (ck : checkpoint) : gmap string tensor :=
  match ck with
  | Wrapped sd => sd
  | Bare sd => sd
  end.

Record animation_pipeline : Type := {
  ap_unet : gmap string tensor;
  ap_vae : gmap string tensor;
  ap_text_encoder : text_model
}.

(** The file loaders, and the two converters that [util.py] imports.  The
    dreambooth converters [convert_ldm_vae_checkpoint],
    [convert_ldm_unet_checkpoint] and [convert_ldm_clip_checkpoint] are
    neither imported nor defined in [util.py]. *)
Record externals : Type := {
  torch_load : string -> checkpoint;
  torch_load_ldm : string -> ldm_ckpt;
  safe_open_ldm : string -> ldm_ckpt;
  safe_open_lora : string -> lora_ckpt;
  convert_lora : animation_pipeline -> lora_ckpt -> scale -> animation_pipeline;
  convert_motion_lora_ckpt_to_diffusers :
    animation_pipeline -> gmap string tensor -> scale -> animation_pipeline
}.

(** [module.load_state_dict(sd, strict=False)]: every entry of [sd] whose
    key the module has replaces the module's parameter; the keys the
    module has and [sd] lacks are reported missing, the keys of [sd] the
    module lacks are reported unexpected.  A parameter is an opaque value
    here: the size check that torch performs on matching keys is not
    modelled. *)
Definition load_state_dict (module sd : gmap string tensor)
    : gmap string tensor * (list string * list string) :=
  (map_imap (fun k old => Some (default old (sd !! k))) module,
   (elements (dom module ∖ dom sd), elements (dom sd ∖ dom module))).

Definition motion_module_filter (sd : gmap string tensor) : gmap string tensor :=
  filter (fun kv => contains "motion_modules." kv.1 = true) sd.

(** The dreambooth branch (lines 182-200).  The checkpoint is read
    according to the suffix of the path ([dreambooth_state_dict] stays
    unbound for any other suffix); the next statement calls
    [convert_ldm_vae_checkpoint], a name that [util.py] neither imports nor
    defines: looking it up raises before its arguments are evaluated, so
    none of the three [load_state_dict] steps is reached. *)
Definition load_dreambooth (ext : externals) (ap : animation_pipeline)
    (dreambooth_model_path : string) : result animation_pipeline :=
  let dreambooth_state_dict :=
    if ends_with ".safetensors" dreambooth_model_path
    then Some (safe_open_ldm ext dreambooth_model_path)
    else if ends_with ".ckpt" dreambooth_model_path
    then Some (torch_load_ldm ext dreambooth_model_path)
    else None in
  Raise NameError.

Definition load_weights (ext : externals) (animation_pipeline0 : animation_pipeline)
    (motion_module_path : string)
    (motion_module_lora_configs : list (string * scale))
    (dreambooth_model_path lora_model_path : string) (lora_alpha : scale)
    : result animation_pipeline :=
  let unet_state_dict : gmap string tensor := ∅ in
  let unet_state_dict :=
    if negb (String.eqb motion_module_path "") then
      let motion_module_state_dict :=
        unwrap_state_dict (torch_load ext motion_module_path) in
      motion_module_filter motion_module_state_dict ∪ unet_state_dict
    else unet_state_dict in
  let '(unet', (missing, unexpected)) :=
    load_state_dict (ap_unet animation_pipeline0) unet_state_dict in
  _ ← py_assert (length unexpected =? 0)%nat;
  let ap := {| ap_unet := unet'; ap_vae := ap_vae animation_pipeline0;
               ap_text_encoder := ap_text_encoder animation_pipeline0 |} in
  ap ← (if negb (String.eqb dreambooth_model_path "")
        then load_dreambooth ext ap dreambooth_model_path else Ok ap);
  ap ← (if negb (String.eqb lora_model_path "") then
          _ ← py_assert (ends_with ".safetensors" lora_model_path);
          Ok (convert_lora ext ap (safe_open_lora ext lora_model_path) lora_alpha)
        else Ok ap);
  Ok (foldl (fun ap cfg =>
               let '(path, alpha) := cfg in
               convert_motion_lora_ckpt_to_diffusers ext ap
                 (unwrap_state_dict (torch_load ext path)) alpha)
            ap motion_module_lora_configs).
End Merge.

Arguments Wrapped {tensor} sd.
Arguments Bare {tensor} sd.
Arguments checkpoint tensor : clear implicits.
Arguments animation_pipeline tensor text_model : clear implicits.
Arguments externals tensor ldm_ckpt lora_ckpt text_model scale : clear implicits.
Arguments unwrap_state_dict {tensor} ck.
Arguments motion_module_filter {tensor} sd.
Arguments load_state_dict {tensor} module sd.
Arguments load_weights {tensor ldm_ckpt lora_ckpt text_model scale} ext
  animation_pipeline0 motion_module_path motion_module_lora_configs
  dreambooth_model_path lora_model_path lora_alpha.
Arguments torch_load {tensor ldm_ckpt lora_ckpt text_model scale} e _.
Arguments ap_unet {tensor text_model} a.
Arguments ap_vae {tensor text_model} a.
Arguments ap_text_encoder {tensor text_model} a.

(** ** Crop geometry *)

Local Open Scope Q_scope.

(** A rectangle [(left, top, right, bottom)] in pixel coordinates. *)
Abbreviation rect := (Q * Q * Q * Q)%type.

Definition Qltb (a b : Q) : bool :=
  match Qcompare a b with
  | Lt => true
  | _ => false
  end.

(** [x // 2] *)
Definition floordiv2 (x : Q) : Q := inject_Z (Qfloor (x / 2)).

(** [int(x)]: truncation toward zero. *)
Definition py_int (x : Q) : Z :=
  if Qltb x 0 then Qceiling x else Qfloor x.

Definition dim (n : nat) : Q := inject_Z (Z.of_nat n).

(** Lines 328-338 and 386-396: the shorter side is padded to the longer. *)
Definition square_rect (crop_rect : rect) : rect :=
  let '(left_, top, right_, bottom) := crop_rect in
  let face_w := right_ - left_ in
  let face_h := bottom - top in
  if Qltb face_w face_h then
    (left_ - floordiv2 (face_h - face_w), top,
     right_ + floordiv2 (face_h - face_w), bottom)
  else
    (left_, top - floordiv2 (face_w - face_h),
     right_, bottom + floordiv2 (face_w - face_h)).

(** [max(left, 0), max(top, 0), min(right, width), min(bottom, height)] *)
Definition clip_rect (width height : nat) (r : rect) : rect :=
  let '(left_, top, right_, bottom) := r in
  (Qmax left_ 0, Qmax top 0, Qmin right_ (dim width), Qmin bottom (dim height)).

(** The crop rectangle of [crop_and_resize_tensor]. *)
Definition crop_and_resize_rect (width height : nat)
    (crop_rect : option rect) (center : option (Q * Q)) : rect :=
  match crop_rect, center with
  | Some cr, _ => clip_rect width height (square_rect cr)
  | None, Some (center_x, center_y) =>
      let distance_to_edge :=
        Qmin (Qmin (Qmin center_x center_y) (dim width - center_x))
             (dim height - center_y) in
      let left_ := center_x - distance_to_edge in
      let right_ := center_x + distance_to_edge in
      let top := center_y - distance_to_edge in
      let bottom := center_y + distance_to_edge in
      (Qmax left_ 0, Qmax top 0, Qmin right_ (dim width), Qmin bottom (dim height))
  | None, None =>
      let short_edge := Qmin (dim height) (dim width) in
      let left_ := floordiv2 (dim width - short_edge) in
      let top := floordiv2 (dim height - short_edge) in
      (left_, top, left_ + short_edge, top + short_edge)
  end.

(** The face rectangle of [crop_move_face]. *)
Definition crop_move_face_rect (width height : nat)
    (crop_rect : option rect) (is_get_head : bool) : rect :=
  match crop_rect with
  | Some cr =>
      let '(left_, top, right_, bottom) := square_rect cr in
      let '(top, bottom) :=
        if is_get_head then
          let delta_hight := bottom - top in
          (top - (4 # 10) * delta_hight, bottom + (1 # 10) * delta_hight)
        else (top, bottom) in
      clip_rect width height (left_, top, right_, bottom)
  | None => (0, 0, 2, 2)
  end.

(** A rectangle whose four edges lie inside a [width] x [height] frame. *)
Definition rect_in_frame (width height : nat) (r : rect) : Prop :=
  let '(left_, top, right_, bottom) := r in
  0 <= left_ <= dim width /\ 0 <= right_ <= dim width /\
  0 <= top <= dim height /\ 0 <= bottom <= dim height.

Definition rect_positive (r : rect) : Prop :=
  let '(left_, top, right_, bottom) := r in
  left_ < right_ /\ top < bottom.

(** A face rectangle of positive size that meets the frame. *)
Definition rect_meets_frame (width height : nat) (r : rect) : Prop :=
  let '(left_, top, right_, bottom) := r in
  left_ < right_ /\ top < bottom /\
  left_ < dim width /\ 0 < right_ /\ top < dim height /\ 0 < bottom.

Local Close Scope Q_scope.

(** ** Frames *)

(** One channel of one frame: [height] rows of [width] pixels. *)
Abbreviation image pixel := (list (list pixel)).

(** A [(B, C, H, W)] tensor. *)
Abbreviation frame pixel := (list (list (list (list pixel)))).

Section Frames.
Variable pixel : Type.
Variable zero : pixel.

Definition frame_height (f : frame pixel) : nat :=
  match f with
  | (img :: _) :: _ => length img
  | _ => 0%nat
  end.

Definition frame_width (f : frame pixel) : nat :=
  match f with
  | ((row :: _) :: _) :: _ => length row
  | _ => 0%nat
  end.

Definition pixel_at (f : frame pixel) (n c y x : nat) : option pixel :=
  img ← f !! n ≫= (.!! c); row ← img !! y; row !! x.

(** [torch.zeros_like(frame)] *)
Definition zeros_like (f : frame pixel) : frame pixel :=
  (fmap (M := list) (fmap (M := list) (fmap (M := list) (fmap (M := list) (fun _ => zero))))) f.

(** [img[top:bottom, left:right]] *)
Definition slice_image (img : image pixel) (top bottom left_ right_ : Z)
    : image pixel :=
  (fun row => py_slice row left_ right_) <$> py_slice img top bottom.

(** [frame[:, :, top:bottom, left:right]] *)
Definition slice_frame (f : frame pixel) (top bottom left_ right_ : Z)
    : frame pixel :=
  fmap (M := list) (fmap (M := list)
    (fun img => slice_image img top bottom left_ right_)) f.

(** [dst[top:bottom, left:right] = src] *)
Definition assign_image (dst src : image pixel) (top bottom left_ right_ : Z)
    : image pixel :=
  let t := slice_bound (length dst) top in
  let b := slice_bound (length dst) bottom in
  imap (fun y row =>
    if ((t <=? y) && (y <? b))%nat then
      let l := slice_bound (length row) left_ in
      let r := slice_bound (length row) right_ in
      imap (fun x v =>
        if ((l <=? x) && (x <? r))%nat
        then default v (src !! (y - t)%nat ≫= (.!! (x - l)%nat))
        else v) row
    else row) dst.

(** [dst[:, :, top:bottom, left:right] = src] *)
Definition assign_frame (dst src : frame pixel) (top bottom left_ right_ : Z)
    : frame pixel :=
  zip_with (zip_with (fun d s => assign_image d s top bottom left_ right_)) dst src.

(** The frame of [crop_move_face] before resizing: black except for the
    face rectangle. *)
Definition move_face_canvas (f : frame pixel) (r : rect) : frame pixel :=
  let '(left_, top, right_, bottom) := r in
  let frame_cropped := zeros_like f in
  let move_face :=
    slice_frame f (py_int top) (py_int bottom) (py_int left_) (py_int right_) in
  assign_frame frame_cropped move_face
    (py_int top) (py_int bottom) (py_int left_) (py_int right_).

(** A pixel of rows 0-1 and columns 0-1 keeps its value, any other is black. *)
Definition keep_corner (y x : nat) (v : pixel) : pixel :=
  if ((y <? 2) && (x <? 2))%nat then v else zero.
End Frames.

Arguments pixel_at {pixel} f n c y x.
Arguments frame_height {pixel} f.
Arguments frame_width {pixel} f.
Arguments slice_frame {pixel} f top bottom left_ right_.

(** ** Cropping, masking and face detection *)

Section FaceCrop.
Variable pixel : Type.
Variable zero : pixel.
(** [torch.nn.functional.interpolate(f, size=(h, w), mode='bilinear')] *)
Variable interpolate : frame pixel -> nat -> nat -> frame pixel.

Definition crop_and_resize_tensor (f : frame pixel) (target_size : nat * nat)
    (crop_rect : option rect) (center : option (Q * Q)) (is_arcface : bool)
    : frame pixel :=
  let height := frame_height f in
  let width := frame_width f in
  let target_size := if is_arcface then (112, 112)%nat else target_size in
  let '(left_, top, right_, bottom) :=
    crop_and_resize_rect width height crop_rect center in
  let frame_cropped :=
    slice_frame f (py_int top) (py_int bottom) (py_int left_) (py_int right_) in
  let '(target_height, target_width) := target_size in
  interpolate frame_cropped target_height target_width.

Definition num_patches_per_dim : nat := 16.

(** [mask[i*ps:(i+1)*ps, j*ps:(j+1)*ps] = 1.] *)
Definition set_patch (mask : list (list bool)) (patch_size i j : nat)
    : list (list bool) :=
  let t := slice_bound (length mask) (Z.of_nat (i * patch_size)) in
  let b := slice_bound (length mask) (Z.of_nat ((i + 1) * patch_size)) in
  imap (fun y row =>
    if ((t <=? y) && (y <? b))%nat then
      let l := slice_bound (length row) (Z.of_nat (j * patch_size)) in
      let r := slice_bound (length row) (Z.of_nat ((j + 1) * patch_size)) in
      imap (fun x v => if ((l <=? x) && (x <? r))%nat then true else v) row
    else row) mask.

(** Lines 423-428: the patch mask from the drawn rates. *)
Definition patch_mask (target_height target_width : nat)
    (mask_rect_rate : nat -> nat -> Q) (mask_rate : Q) : list (list bool) :=
  let patch_size := (target_height / num_patches_per_dim)%nat in
  let mask := replicate target_height (replicate target_width false) in
  foldl (fun mask i =>
    foldl (fun mask j =>
      if Qltb (mask_rect_rate i j) mask_rate
      then set_patch mask patch_size i j
      else mask) mask (seq 0 num_patches_per_dim))
    mask (seq 0 num_patches_per_dim).

(** The entry of a mask at row [y], column [x]. *)
Definition mask_at (mask : list (list bool)) (y x : nat) : option bool :=
  mask !! y ≫= (.!! x).

(** [(y, x)] lies in patch [(i, j)] of the grid. *)
Definition in_patch (patch_size i j y x : nat) : bool :=
  ((i * patch_size <=? y) && (y <? (i + 1) * patch_size) &&
   (j * patch_size <=? x) && (x <? (j + 1) * patch_size))%nat.

Definition mask_shape (h w : nat) (mask : list (list bool)) : Prop :=
  length mask = h /\ Forall (fun row => length row = w) mask.

Definition image_has_shape (h w : nat) (img : image pixel) : bool :=
  (length img =? h)%nat && forallb (fun row => (length row =? w)%nat) img.

(** [f[:, :, mask] = 0.]; the mask must have the shape of the images. *)
Definition apply_mask (f : frame pixel) (h w : nat) (mask : list (list bool))
    : result (frame pixel) :=
  if forallb (forallb (image_has_shape h w)) f then
    Ok (fmap (M := list) (fmap (M := list) (fun img =>
          zip_with (zip_with (fun v (m : bool) => if m then zero else v)) img mask)) f)
  else Raise IndexError.

(** [cur_mask_rate] is the draw of [random.uniform(0, 1)] and
    [mask_rect_rate] the matrix drawn by [torch.rand(16, 16)]. *)
Definition crop_move_face (f : frame pixel) (target_size : nat * nat)
    (crop_rect : option rect) (use_mask_rate mask_rate color_jit_rate : Q)
    (is_get_head : bool)
    (cur_mask_rate : Q) (mask_rect_rate : nat -> nat -> Q)
    : result (frame pixel) :=
  let height := frame_height f in
  let width := frame_width f in
  let frame_cropped :=
    move_face_canvas pixel zero f
      (crop_move_face_rect width height crop_rect is_get_head) in
  let '(target_height, target_width) := target_size in
  let frame_resized := interpolate frame_cropped target_height target_width in
  if negb (Qeq_bool mask_rate 0) && Qltb cur_mask_rate use_mask_rate then
    apply_mask frame_resized target_height target_width
      (patch_mask target_height target_width mask_rect_rate mask_rate)
  else Ok frame_resized.

(** What the face detector returns: [image_ids] (absent when the key is
    missing) and [rects]. *)
Record detection : Type := {
  image_ids : option (list Z);
  rects : list rect
}.

Local Open Scope Q_scope.

Definition get_rect_length (left_ top right_ bottom width height : Q)
    : Q * Q * Q :=
  let center_x := floordiv2 (left_ + right_) in
  let center_y := floordiv2 (top + bottom) in
  let distance_to_edge :=
    Qmin (Qmin (Qmin center_x center_y) (width - center_x)) (height - center_y) in
  (2 * distance_to_edge, center_x, center_y).

(** Lines 505-508: the rectangles detected in frame [i], [j] being the
    position reached in [image_ids]. *)
Fixpoint face_rects_of (i : nat) (all_rects : list rect) (j : Z)
    (ids : list Z) (face_rects : list rect) : result (list rect) :=
  match ids with
  | [] => Ok face_rects
  | id :: ids' =>
      if (Z.of_nat i =? id)%Z then
        r ← py_index all_rects j;
        face_rects_of i all_rects (j + 1)%Z ids' (face_rects ++ [r])
      else face_rects_of i all_rects (j + 1)%Z ids' face_rects
  end.

(** Lines 504-515: the union of the first rectangle of every frame. *)
Fixpoint union_faces (ids : list Z) (all_rects : list rect) (frames : list nat)
    (acc : rect) : result rect :=
  match frames with
  | [] => Ok acc
  | i :: frames' =>
      face_rects ← face_rects_of i all_rects 0%Z ids [];
      face_rect ← py_index face_rects 0%Z;
      let '(l, t, r, b) := acc in
      let '(left_, top, right_, bottom) := face_rect in
      union_faces ids all_rects frames'
        (Qmin left_ l, Qmin top t, Qmax r right_, Qmax b bottom)
  end.

Definition crop025_face (pixel_values : frame pixel) (target_size : nat * nat)
    (crop_face_center : bool)
    (face_detector : option (frame pixel -> detection)) : result (frame pixel) :=
  detector ← match face_detector with
             | Some d => Ok d
             | None => Raise AssertionError
             end;
  let faces := detector pixel_values in
  match image_ids faces with
  | Some ids =>
      if (length ids =? 0)%nat || negb crop_face_center then
        Ok (crop_and_resize_tensor pixel_values target_size None None false)
      else
        let L := length pixel_values in
        let H := dim (frame_height pixel_values) in
        let W := dim (frame_width pixel_values) in
        '(l, t, r, b) ← union_faces ids (rects faces) (seq 0 L) (W, H, 0, 0);
        let dh := b - t in
        let dw := r - l in
        let '(rect_length, center_x, center_y) := get_rect_length l t r b W H in
        let l := center_x - Qmin (floordiv2 rect_length) (dw * (6 # 10)) in
        let r := center_x + Qmin (floordiv2 rect_length) (dw * (6 # 10)) in
        let t := center_y - Qmin (floordiv2 rect_length) (dh * 1) in
        let b := center_y + Qmin (floordiv2 rect_length) (dh * (6 # 10)) in
        Ok (crop_and_resize_tensor pixel_values target_size (Some (l, t, r, b))
              None false)
  | None => Ok (crop_and_resize_tensor pixel_values target_size None None false)
  end.
End FaceCrop.

(** ** Video export *)

Section VideoExport.
Variable grid : Type.       (* one rendered 8-bit grid image *)
Variable timeslice : Type.  (* the batch of frames of one time index *)

Inductive container : Type :=
| GifLoop0      (* [loop=0] *)
| Libx264.      (* [codec='libx264'] *)

(** The call of [imageio.mimsave]. *)
Record mimsave : Type := {
  ms_path : string;
  ms_outputs : list grid;
  ms_fps : Z;
  ms_container : container
}.

(** Lines 77-78. *)
Definition resolve_fps (fps : option Z) (video_length : nat) : Z :=
  match fps with
  | Some fps => fps
  | None => if (1 <? video_length)%nat then (Z.of_nat video_length / 2)%Z else 1%Z
  end.

(** [videos] is the tensor after [rearrange(videos, "b c t h w -> t b c h w")];
    [render] stands for [make_grid] and the conversion to 8 bits. *)
Definition save_videos_grid (render : timeslice -> bool -> nat -> grid)
    (videos : list timeslice) (path : string) (rescale : bool) (n_rows : nat)
    (fps : option Z) : mimsave :=
  let video_length := length videos in
  let outputs := (fun x => render x rescale n_rows) <$> videos in
  let fps := resolve_fps fps video_length in
  if ends_with ".gif" path
  then {| ms_path := path; ms_outputs := outputs; ms_fps := fps;
          ms_container := GifLoop0 |}
  else {| ms_path := path; ms_outputs := outputs; ms_fps := fps;
          ms_container := Libx264 |}.
End VideoExport.

Arguments crop_and_resize_tensor {pixel} interpolate f target_size crop_rect center is_arcface.
Arguments crop_move_face {pixel} zero interpolate f target_size crop_rect
  use_mask_rate mask_rate color_jit_rate is_get_head cur_mask_rate mask_rect_rate.
Arguments crop025_face {pixel} interpolate pixel_values target_size
  crop_face_center face_detector.
Arguments apply_mask {pixel} zero f h w mask.
Arguments image_has_shape {pixel} h w img.
Arguments resolve_fps fps video_length : clear implicits.
Arguments save_videos_grid {grid timeslice} render videos path rescale n_rows fps.
Arguments ms_fps {grid} m.

(** ** Further utilities of [util.py] *)

(** *** Image padding ([pad_image]) *)

(** The border [(left, top, right, bottom)] computed for an image of the
    given size. *)
Definition pad_image_padding (width height : Z) : Z * Z * Z * Z :=
  if width <? height then
    let diff := height - width in
    (diff / 2, 0, diff - diff / 2, 0)
  else
    let diff := width - height in
    (0, diff / 2, 0, diff - diff / 2).

(** [ImageOps.expand(image, border)]: the size of the result and the
    position of the original image's corner inside it. *)
Definition expand (size : Z * Z) (border : Z * Z * Z * Z) : (Z * Z) * (Z * Z) :=
  let '(width, height) := size in
  let '(left_, top, right_, bottom) := border in
  ((left_ + width + right_, top + height + bottom), (left_, top)).

Definition pad_image (size : Z * Z) : (Z * Z) * (Z * Z) :=
  let '(width, height) := size in
  expand size (pad_image_padding width height).

(** *** Rank-zero printing ([zero_rank_print]) *)

(** The lines printed, given what [dist.is_initialized()] and
    [dist.get_rank()] return. *)
Definition zero_rank_print (is_initialized : bool) (get_rank : Z) (s : string)
    : list string :=
  if negb is_initialized && (is_initialized && (get_rank =? 0))
  then [("### " ++ s)%string]
  else [].

(** *** Aspect-ratio padding ([apply_transforms], lines 264-281) *)

Definition Qneb (a b : Q) : bool := negb (Qeq_bool a b).

(** The size [(height, width)] the image is resized to and the padding
    [(left, top, right, bottom)] applied afterwards; [None] when the
    aspect ratio is 1 and the step is skipped. *)
Definition aspect_resize_pad (H W : Z) (aspect_ratio : Q)
    : option ((Z * Z) * (Z * Z * Z * Z)) :=
  if Qneb aspect_ratio 1 then
    let target_size :=
      if Qle_bool aspect_ratio 1
      then (H, py_int (aspect_ratio * inject_Z W)%Q)
      else (py_int (inject_Z H / aspect_ratio)%Q, W) in
    let '(resized_height, resized_width) := target_size in
    let left_pad := (W - resized_width) / 2 in
    let top_pad := (H - resized_height) / 2 in
    let right_pad := W - resized_width - left_pad in
    let bottom_pad := H - resized_height - top_pad in
    Some (target_size, (left_pad, top_pad, right_pad, bottom_pad))
  else None.

(** [TF.pad(img, (left, top, right, bottom))] on an image of size
    [(height, width)]. *)
Definition padded_size (size : Z * Z) (padding : Z * Z * Z * Z) : Z * Z :=
  let '(height, width) := size in
  let '(left_, top, right_, bottom) := padding in
  (top + height + bottom, left_ + width + right_).

(** *** Landmark patches ([get_patch_025]) *)


(** *** One face per frame (lines 562-572 and 624-634) *)

(** The inner loop: the rectangle of the first detection of frame [i],
    [j] being the position reached in [image_ids]. *)
Fixpoint first_face_of (i : nat) (all_rects : list rect) (j : Z) (ids : list Z)
    : result (option rect) :=
  match ids with
  | [] => Ok None
  | id :: ids' =>
      if Z.of_nat i =? id then
        r ← py_index all_rects j;
        Ok (Some r)
      else first_face_of i all_rects (j + 1) ids'
  end.

(** The outer loop over the frame indices, with the list built so far. *)
Fixpoint face_rect_loop (ids : list Z) (all_rects : list rect)
    (frames : list nat) (face_rect : list (option rect))
    : result (list (option rect)) :=
  match frames with
  | [] => Ok face_rect
  | i :: frames' =>
      found ← first_face_of i all_rects 0 ids;
      let face_rect :=
        match found with
        | Some r => face_rect ++ [Some r]
        | None => face_rect
        end in
      let face_rect :=
        if (length face_rect =? i)%nat then face_rect ++ [None] else face_rect in
      face_rect_loop ids all_rects frames' face_rect
  end.

(** The list [face_rect] of [get_025_gaze_mouth] and [get_condition_face]
    for a batch of [n] frames. *)
Definition frame_face_rects (faces : detection) (n : nat)
    : result (list (option rect)) :=
  match image_ids faces with
  | Some ids =>
      if (length ids =? 0)%nat then Ok (replicate n None)
      else face_rect_loop ids (rects faces) (seq 0 n) []
  | None => Ok (replicate n None)
  end.

Section FaceCondition.
Variable pixel : Type.
Variable zero : pixel.
Variable interpolate : frame pixel -> nat -> nat -> frame pixel.

(** Lines 573-581: [crop_move_face] on every frame, with the draws made
    for that frame, and the concatenation of the results. *)
Fixpoint face_image_list (control_crop : frame pixel)
    (face_rect : list (option rect)) (target_size : nat * nat)
    (is_get_head : bool) (draws : nat -> Q * (nat -> nat -> Q)) (i : nat)
    : result (frame pixel) :=
  match face_rect with
  | [] => Ok []
  | face_rect_item :: face_rect' =>
      item ← py_index control_crop (Z.of_nat i);
      face_image ← crop_move_face zero interpolate [item] target_size
                      face_rect_item 0 0 0 is_get_head (draws i).1 (draws i).2;
      rest ← face_image_list control_crop face_rect' target_size is_get_head
               draws (S i);
      Ok (face_image ++ rest)
  end.

(** The cropped control frames of [get_condition_face] and
    [get_025_gaze_mouth], in [(b, c, h, w)] layout (before the final
    [rearrange]). *)
Definition condition_faces (control : frame pixel)
    (face_detector : frame pixel -> detection) (target_size : nat * nat)
    (is_get_head : bool) (draws : nat -> Q * (nat -> nat -> Q))
    : result (frame pixel) :=
  let control_crop := control in
  let faces := face_detector control_crop in
  face_rect ← frame_face_rects faces (length control_crop);
  face_images ← face_image_list control_crop face_rect target_size is_get_head
                  draws 0%nat;
  (* [torch.cat] of an empty list of tensors raises *)
  if (length face_rect =? 0)%nat then Raise RuntimeError else Ok face_images.

(** ['image_ids' not in faces.keys() or faces['image_ids'].numel() == 0] *)
Definition no_faces (faces : detection) : bool :=
  match image_ids faces with
  | Some ids => (length ids =? 0)%nat
  | None => true
  end.

Definition crop_and_resize_tensor_face (pixel_values : frame pixel)
    (target_size : nat * nat) (crop_face_center : bool)
    (face_detector : option (frame pixel -> detection))
    : result (frame pixel) :=
  let pixel_values_det := pixel_values in
  detector ← match face_detector with
             | Some d => Ok d
             | None => Raise AssertionError
             end;
  let detect_idx := if (1 <? length pixel_values_det)%nat then [0; -1] else [0] in
  selected ← mapM (py_index pixel_values_det) detect_idx;
  let faces := detector selected in
  if no_faces faces || negb crop_face_center then
    Ok (crop_and_resize_tensor interpolate pixel_values_det target_size
          None None false)
  else
    face_rect ← face_rect_loop (default [] (image_ids faces)) (rects faces)
                  [0; 1]%nat [];
    face_rect0 ← py_index face_rect 0;
    face_rect1 ← py_index face_rect 1;
    match face_rect0, face_rect1 with
    | Some (left_, top, right_, bottom), Some _ =>
        let face_center := (floordiv2 (left_ + right_), floordiv2 (top + bottom)) in
        let pixel_values_det :=
          crop_and_resize_tensor interpolate pixel_values_det target_size
            None (Some face_center) false in
        let faces :=
          detector (py_slice pixel_values_det (-1)
                      (Z.of_nat (length pixel_values_det))) in
        if no_faces faces then
          (* [rearrange(pixel_values, "b f c h w -> (b f) c h w")] on a
             four-dimensional tensor *)
          Raise RuntimeError
        else Ok pixel_values_det
    | Some (left_, top, right_, bottom), None =>
        if (length pixel_values =? 1)%nat then
          let face_center :=
            (floordiv2 (left_ + right_), floordiv2 (top + bottom)) in
          Ok (crop_and_resize_tensor interpolate pixel_values_det target_size
                None (Some face_center) false)
        else
          Ok (crop_and_resize_tensor interpolate pixel_values_det target_size
                None None false)
    | None, _ =>
        Ok (crop_and_resize_tensor interpolate pixel_values_det target_size
              None None false)
    end.
End FaceCondition.

Arguments condition_faces {pixel} zero interpolate control face_detector
  target_size is_get_head draws.
Arguments face_image_list {pixel} zero interpolate control_crop face_rect
  target_size is_get_head draws i.
Arguments crop_and_resize_tensor_face {pixel} interpolate pixel_values
  target_size crop_face_center face_detector.

(** *** Checkpoint download ([get_checkpoint]) *)

(** The character ["/"]. *)
Definition slash : Ascii.ascii := Ascii.ascii_of_nat 47.

(** [path.split("/")[-1]], [current] being the component read so far. *)
Fixpoint base_path_from (current : string) (path : string) : string :=
  match path with
  | EmptyString => current
  | String ch rest =>
      if Ascii.eqb ch slash then base_path_from EmptyString rest
      else base_path_from (current ++ String ch EmptyString)%string rest
  end.

Definition base_path (path : string) : string := base_path_from EmptyString path.

(** ** Concrete interpretations *)

(** Real-number arithmetic on vectors, an instance of [TensorOps]. *)
Definition R_sum (v : list R) : R := fold_right Rplus 0%R v.

#[global] Instance R_ops : TensorOps R (list R) := {|
  s_lit := Q2R;
  s_sub := Rminus;
  s_mul := Rmult;
  s_abs := Rabs;
  s_gtb := fun x y => if Rlt_dec y x then true else false;
  s_pow_half := sqrt;
  s_acos := acos;
  s_sin := sin;
  t_norm := fun v => sqrt (R_sum ((fun x => (x * x)%R) <$> v));
  t_sum := R_sum;
  t_mul := zip_with Rmult;
  t_add := zip_with Rplus;
  t_sub := zip_with Rminus;
  t_scale := fun a v => Rmult a <$> v;
  t_div := fun v a => (fun x => (x / a)%R) <$> v
|}.

(** Nearest-neighbour resizing of integer images, an interpretation of
    [interpolate] that returns images of the requested size. *)
Definition nearest_image (img : list (list Z)) (h w : nat) : list (list Z) :=
  (fun y =>
     let row := default [] (img !! (y * length img / h)%nat) in
     (fun x => default 0%Z (row !! (x * length row / w)%nat)) <$> seq 0 w)
  <$> seq 0 h.

Definition nearest (f : frame Z) (h w : nat) : frame Z :=
  fmap (M := list) (fmap (M := list) (fun img => nearest_image img h w)) f.

(** A two-step schedule on a thousand training steps, and a pipeline
    whose network returns its input latent. *)
Definition two_step_scheduler : scheduler R := {|
  num_train_timesteps := 1000;
  num_inference_steps := Some 2;
  alphas_cumprod := replicate 1000 (1 / 2)%R;
  final_alpha_cumprod := 1%R;
  timesteps := [500; 0]
|}.

Definition echo_pipeline : pipeline (list R) unit := {|
  encode_prompt := fun _ => tt;
  unet := fun latents _ _ => latents
|}.

(** Integer-valued parameters and loaders that read every file as the
    given motion-module checkpoint. *)
Definition const_externals (ck : checkpoint Z) : externals Z unit unit unit Q := {|
  torch_load := fun _ => ck;
  torch_load_ldm := fun _ => tt;
  safe_open_ldm := fun _ => tt;
  safe_open_lora := fun _ => tt;
  convert_lora := fun ap _ _ => ap;
  convert_motion_lora_ckpt_to_diffusers := fun ap _ _ => ap
|}.

Definition small_pipeline : animation_pipeline Z unit := {|
  ap_unet := {[ "conv_in.weight" := 1%Z ]};
  ap_vae := ∅;
  ap_text_encoder := tt
|}.

(** Two 2 x 2 single-channel frames, and a detector that finds a face in
    the first one only. *)
Definition two_frames : frame Z :=
  [[[[1; 2]; [3; 4]]]; [[[5; 6]; [7; 8]]]]%Z.

Definition first_frame_only (_ : frame Z) : detection :=
  {| image_ids := Some [0%Z]; rects := [(0, 0, 1, 1)%Q] |}.

(** A 3 x 3 single-channel frame. *)
Definition three_by_three : frame Z :=
  [[[[1; 2; 3]; [4; 5; 6]; [7; 8; 9]]]]%Z.

(** A scheduler as constructed, before any call of [set_timesteps]. *)
Definition fresh_scheduler : scheduler R := {|
  num_train_timesteps := 1000;
  num_inference_steps := None;
  alphas_cumprod := replicate 1000 (1 / 2)%R;
  final_alpha_cumprod := 1%R;
  timesteps := [2; 1; 0]
|}.

(** A denoising network with one motion-module parameter. *)
Definition motion_pipeline : animation_pipeline Z unit := {|
  ap_unet := {[ "conv_in.weight" := 1%Z; "motion_modules.0.weight" := 2%Z ]};
  ap_vae := ∅;
  ap_text_encoder := tt
|}.

(** * Properties *)

(** ** Interpolation *)

Section InterpolationFacts.
Context {S T : Type} `{TensorOps S T}.

Lemma slerp_unfold (v0 v1 : T) (t : S) :
  slerp v0 v1 t =
  if s_gtb (s_abs (unit_dot v0 v1)) DOT_THRESHOLD then linear v0 v1 t
  else
    let omega := s_acos (unit_dot v0 v1) in
    t_div (t_add (t_scale (s_sin (s_mul (s_sub (s_lit 1) t) omega)) v0)
                 (t_scale (s_sin (s_mul t omega)) v1))
          (s_sin omega).
Proof. reflexivity. Qed.

(** C3: when the absolute value of the dot product of the unit-normalised
    vectors exceeds the threshold 0.9995, [slerp v0 v1 t] is exactly the
    linear interpolation [(1 - t) * v0 + t * v1]. *)
Theorem slerp_parallel_is_linear (v0 v1 : T) (t : S) :
  s_gtb (s_abs (unit_dot v0 v1)) DOT_THRESHOLD = true ->
  slerp v0 v1 t = linear v0 v1 t.
Proof.
  intros Hdot. rewrite slerp_unfold. now rewrite Hdot.
Qed.
End InterpolationFacts.

Lemma R_unit_dot_same : unit_dot [1%R] [1%R] = 1%R.
Proof.
  unfold unit_dot. cbn.
  replace (1 * 1 + 0)%R with 1%R by lra.
  rewrite sqrt_1. lra.
Qed.

Lemma slerp_parallel_is_linear_witness :
  s_gtb (s_abs (unit_dot [1%R] [1%R])) DOT_THRESHOLD = true /\
  slerp [1%R] [1%R] (1 / 2)%R = linear [1%R] [1%R] (1 / 2)%R.
Proof.
  assert (Hgt : s_gtb (s_abs (unit_dot [1%R] [1%R])) DOT_THRESHOLD = true).
  { rewrite R_unit_dot_same. cbn.
    destruct (Rlt_dec (Q2R (9995 # 10000)) (Rabs 1)) as [_ | Hn]; [reflexivity |].
    exfalso. apply Hn. rewrite Rabs_R1. unfold Q2R. cbn. lra. }
  split; [exact Hgt |].
  apply (slerp_parallel_is_linear [1%R] [1%R] (1 / 2)%R Hgt).
Defined.

(** ** Python indexing *)

Lemma py_index_in_range {A : Type} (l : list A) (i : Z) :
  - Z.of_nat (length l) <= i < Z.of_nat (length l) ->
  exists x, py_index l i = Ok x /\ x ∈ l.
Proof.
  intros Hi. unfold py_index.
  set (n := Z.of_nat (length l)) in *.
  set (j := if i <? 0 then i + n else i).
  assert (Hj : 0 <= j < n) by (subst j; destruct (Z.ltb_spec i 0); lia).
  destruct (Z.ltb_spec j 0); [lia |].
  destruct (Z.leb_spec n j); [lia |]. cbn.
  destruct (lookup_lt_is_Some_2 l (Z.to_nat j)) as [x Hx]; [lia |].
  rewrite Hx. exists x. split; [reflexivity |].
  apply list_elem_of_lookup. eauto.
Qed.

Lemma py_index_out_of_range {A : Type} (l : list A) (i : Z) :
  i < - Z.of_nat (length l) \/ Z.of_nat (length l) <= i ->
  py_index l i = Raise IndexError.
Proof.
  intros Hi. unfold py_index.
  set (n := Z.of_nat (length l)) in *.
  destruct (Z.ltb_spec i 0).
  - destruct (Z.ltb_spec (i + n) 0); [reflexivity | lia].
  - destruct (Z.ltb_spec i 0); [lia |].
    destruct (Z.leb_spec n i); [reflexivity | lia].
Qed.

(** ** DDIM inversion *)

Section DDIMFacts.
Context {S T : Type} `{TensorOps S T}.
Context {Emb : Type}.

(** C2: [next_step] computes [t' = min(t - num_train_timesteps //
    num_inference_steps, 999)], reads alpha at [t'] (the final value when
    [t' < 0]) and at [t], and returns the DDIM forward-inversion
    recurrence [sqrt a_t * ((sample - sqrt (1 - a_t') * noise) / sqrt a_t')
    + sqrt (1 - a_t) * noise]; it fails exactly where a lookup fails. *)
Theorem next_step_is_recurrence (noise : T) (t : Z) (sample : T)
    (sch : scheduler S) :
  next_step noise t sample sch = next_step_spec noise t sample sch.
Proof.
  unfold next_step, next_step_spec, alpha_at.
  destruct (py_floordiv (num_train_timesteps sch) (num_inference_steps sch))
    as [k | e]; [| reflexivity].
  cbn.
  destruct (Z.leb_spec 0 (Z.min (t - k) 999)) as [Hge | Hlt];
    destruct (Z.ltb_spec (Z.min (t - k) 999) 0) as [Hlt' | Hge']; try lia;
    reflexivity.
Qed.

Lemma next_step_ok (noise : T) (t : Z) (sample : T) (sch : scheduler S) (n : Z) :
  num_inference_steps sch = Some n -> n <> 0 ->
  lookup_ok sch (num_train_timesteps sch / n) t ->
  exists latent, next_step noise t sample sch = Ok latent.
Proof.
  intros Hn Hn0 [Ht Hmin]. unfold next_step, py_floordiv. rewrite Hn.
  destruct (Z.eqb_spec n 0) as [| _]; [contradiction |]. cbn.
  destruct (py_index_in_range (alphas_cumprod sch) t Ht) as [a [Ha _]].
  destruct (Z.leb_spec 0 (Z.min (t - num_train_timesteps sch / n) 999)) as [Hge | Hlt].
  - destruct (py_index_in_range (alphas_cumprod sch)
                (Z.min (t - num_train_timesteps sch / n) 999)) as [a' [Ha' _]];
      [lia |].
    rewrite Ha'. cbn. rewrite Ha. cbn. eauto.
  - cbn. rewrite Ha. cbn. eauto.
Qed.

Lemma ddim_iter_ok (p : pipeline T Emb) (sch : scheduler S) (cond : Emb)
    (idx : list nat) :
  schedule_ok sch ->
  Forall (fun i => (i < 2 * length (timesteps sch))%nat) idx ->
  forall (latent : T) (acc : list T),
  exists rest, ddim_iter p sch cond idx latent acc = Ok (acc ++ rest) /\
               length rest = length idx.
Proof.
  intros (n & Hn & Hn0 & Hall) Hidx.
  induction Hidx as [| i idx Hi Hidx IH]; intros latent acc.
  - exists []. cbn. rewrite app_nil_r. split; reflexivity.
  - cbn [ddim_iter].
    destruct (py_index_in_range (timesteps sch)
                (Z.of_nat (length (timesteps sch)) - Z.of_nat i - 1))
      as [t [Ht Hin]]; [lia |].
    rewrite Ht. cbn.
    rewrite Forall_forall in Hall.
    destruct (next_step_ok
                (get_noise_pred_single latent t cond (unet p))
                t latent sch n Hn Hn0 (Hall t Hin)) as [latent' Hstep].
    rewrite Hstep. cbn.
    destruct (IH latent' (acc ++ [latent'])) as [rest [Hrest Hlen]].
    exists (latent' :: rest). rewrite Hrest, <- app_assoc. cbn.
    split; [reflexivity | now rewrite Hlen].
Qed.

(** C1 (amended): on a schedule whose lookups are in range, and for
    [num_inv_steps = N] at most twice the number of timesteps, [ddim_loop]
    (and hence [ddim_inversion]) returns exactly [N + 1] latents, the first
    of which is the input latent. *)
Theorem ddim_loop_length (p : pipeline T Emb) (sch : scheduler S) (latent : T)
    (N : nat) (prompt : string) :
  schedule_ok sch ->
  (N <= 2 * length (timesteps sch))%nat ->
  exists all_latent,
    ddim_loop p sch latent N prompt = Ok all_latent /\
    ddim_inversion p sch latent N prompt = Ok all_latent /\
    length all_latent = (N + 1)%nat /\
    all_latent !! 0%nat = Some latent.
Proof.
  intros Hok HN. unfold ddim_inversion, ddim_loop. cbn.
  destruct (ddim_iter_ok p sch (encode_prompt p prompt) (seq 0 N) Hok)
    with (latent := latent) (acc := [latent]) as [rest [Hrun Hlen]].
  - apply Forall_forall. intros i Hi. apply elem_of_seq in Hi. lia.
  - exists ([latent] ++ rest). rewrite Hrun.
    split; [reflexivity |]. split; [reflexivity |]. split; [| reflexivity].
    cbn. rewrite Hlen, length_seq. lia.
Qed.

(** Beyond twice the number of timesteps the index [len - i - 1] leaves
    the sequence and the loop raises. *)
Lemma ddim_iter_raises (p : pipeline T Emb) (sch : scheduler S) (cond : Emb)
    (idx : list nat) (i : nat) :
  i ∈ idx -> (2 * length (timesteps sch) <= i)%nat ->
  forall (latent : T) (acc : list T),
  exists e, ddim_iter p sch cond idx latent acc = Raise e.
Proof.
  intros Hin Hi. induction idx as [| j idx IH]; intros latent acc.
  - inversion Hin.
  - cbn [ddim_iter].
    destruct (py_index (timesteps sch)
                (Z.of_nat (length (timesteps sch)) - Z.of_nat j - 1))
      as [t | e] eqn:Ht; [| cbn; eauto].
    cbn.
    destruct (next_step _ t latent sch) as [latent' | e] eqn:Hs; [| cbn; eauto].
    cbn. apply elem_of_cons in Hin as [-> | Hin].
    + rewrite py_index_out_of_range in Ht by lia. discriminate.
    + now apply IH.
Qed.
End DDIMFacts.

Lemma two_step_schedule_ok : schedule_ok two_step_scheduler.
Proof.
  exists 2. split; [reflexivity |]. split; [lia |].
  unfold lookup_ok. cbn [two_step_scheduler alphas_cumprod timesteps num_train_timesteps].
  rewrite length_replicate.
  repeat constructor; cbn; lia.
Qed.

Lemma ddim_loop_length_witness :
  schedule_ok two_step_scheduler /\
  (4 <= 2 * length (timesteps two_step_scheduler))%nat /\
  exists all_latent,
    ddim_loop echo_pipeline two_step_scheduler [1%R] 4 "" = Ok all_latent /\
    ddim_inversion echo_pipeline two_step_scheduler [1%R] 4 "" = Ok all_latent /\
    length all_latent = 5%nat /\
    all_latent !! 0%nat = Some [1%R].
Proof.
  split; [exact two_step_schedule_ok |].
  split; [cbn; lia |].
  apply (ddim_loop_length echo_pipeline two_step_scheduler [1%R] 4 "").
  - exact two_step_schedule_ok.
  - cbn. lia.
Defined.

(** C1 as stated fails: with two timesteps the fifth inversion step reads
    [timesteps[-3]] and raises, so no sequence of six latents is returned. *)
Lemma ddim_loop_length_counterexample :
  ddim_loop echo_pipeline two_step_scheduler [1%R] 5 "" = Raise IndexError /\
  ~ (exists all_latent,
       ddim_loop echo_pipeline two_step_scheduler [1%R] 5 "" = Ok all_latent /\
       length all_latent = 6%nat).
Proof.
  assert (Hraise :
    ddim_loop echo_pipeline two_step_scheduler [1%R] 5 "" = Raise IndexError).
  { reflexivity. }
  split; [exact Hraise |].
  intros (l & Hl & _). rewrite Hraise in Hl. discriminate.
Qed.

(** ** Checkpoint merging *)

Section MergeFacts.
Context {tensor ldm_ckpt lora_ckpt text_model scale : Type}.
Implicit Types (ext : externals tensor ldm_ckpt lora_ckpt text_model scale).
Implicit Types (ap : animation_pipeline tensor text_model).
Implicit Types (sd : gmap string tensor).

Lemma path_nonempty (path : string) :
  path <> "" -> negb (String.eqb path "") = true.
Proof.
  intros Hne. destruct (String.eqb_spec path ""); [contradiction | reflexivity].
Qed.

Lemma unexpected_nonempty (module sd : gmap string tensor) (k : string) :
  is_Some (sd !! k) -> module !! k = None ->
  (length (load_state_dict module sd).2.2 =? 0)%nat = false.
Proof.
  intros Hk Hnone. cbn.
  assert (Hin : k ∈ elements (dom sd ∖ dom module)).
  { apply elem_of_elements, elem_of_difference. split.
    - now apply elem_of_dom.
    - rewrite elem_of_dom, Hnone. intros [? ?]; discriminate. }
  destruct (elements (dom sd ∖ dom module)); [inversion Hin | reflexivity].
Qed.

Lemma unexpected_empty (module sd : gmap string tensor) :
  dom sd ⊆ dom module ->
  (load_state_dict module sd).2.2 = [].
Proof.
  intros Hsub. cbn. apply elements_empty_iff. intros x. split.
  - intros [Hx Hnx]%elem_of_difference. exfalso. apply Hnx, Hsub, Hx.
  - intros Hx. now apply elem_of_empty in Hx.
Qed.

Lemma load_state_dict_lookup (module sd : gmap string tensor) (k : string) :
  (load_state_dict module sd).1 !! k =
  (fun old => default old (sd !! k)) <$> module !! k.
Proof.
  cbn. rewrite map_lookup_imap. now destruct (module !! k).
Qed.

Lemma load_state_dict_empty (module : gmap string tensor) :
  (load_state_dict module ∅).1 = module.
Proof.
  apply map_eq. intros k. rewrite load_state_dict_lookup, lookup_empty.
  now destruct (module !! k).
Qed.

(** The first step of [load_weights] when nothing else is configured. *)
Lemma load_weights_motion_only ext ap (path : string) (alpha : scale) :
  load_weights ext ap path [] "" "" alpha =
  let sd := if negb (String.eqb path "")
            then motion_module_filter (unwrap_state_dict (torch_load ext path)) ∪ ∅
            else ∅ in
  if (length (load_state_dict (ap_unet ap) sd).2.2 =? 0)%nat
  then Ok {| ap_unet := (load_state_dict (ap_unet ap) sd).1;
             ap_vae := ap_vae ap; ap_text_encoder := ap_text_encoder ap |}
  else Raise AssertionError.
Proof.
  unfold load_weights. cbn zeta.
  destruct (negb (String.eqb path "")); cbn;
    match goal with
    | |- context [Nat.eqb ?n 0] => destruct (Nat.eqb n 0)
    end; reflexivity.
Qed.

(** C4: a motion-module checkpoint with a key containing
    ["motion_modules."] that the denoising network lacks makes
    [load_weights] fail its assertion, whatever the other sources are;
    a network that has every such key of the checkpoint loads it, however
    many further parameters of its own the checkpoint leaves out. *)
Theorem load_weights_unexpected_key ext ap (path : string)
    (cfgs : list (string * scale)) (dreambooth lora : string) (alpha : scale)
    (k : string) :
  path <> "" ->
  is_Some (unwrap_state_dict (torch_load ext path) !! k) ->
  contains "motion_modules." k = true ->
  ap_unet ap !! k = None ->
  load_weights ext ap path cfgs dreambooth lora alpha = Raise AssertionError /\
  (forall ap',
     dom (motion_module_filter (unwrap_state_dict (torch_load ext path)))
       ⊆ dom (ap_unet ap') ->
     exists ap'',
       load_weights ext ap' path [] "" "" alpha = Ok ap'' /\
       dom (ap_unet ap'') = dom (ap_unet ap') /\
       forall j, ap_unet ap'' !! j =
         (fun old =>
            default old
              (motion_module_filter (unwrap_state_dict (torch_load ext path)) !! j))
         <$> ap_unet ap' !! j).
Proof.
  intros Hpath [v Hk] Hmotion Hnone. split.
  - unfold load_weights. cbn zeta. rewrite (path_nonempty path Hpath).
    pose proof (unexpected_nonempty (ap_unet ap)
      (motion_module_filter (unwrap_state_dict (torch_load ext path)) ∪ ∅) k) as Hne.
    cbn in Hne. cbn. rewrite Hne; [reflexivity | | exact Hnone].
    exists v. rewrite (right_id_L ∅ (∪)).
    apply map_lookup_filter_Some. split; [exact Hk | exact Hmotion].
  - intros ap' Hsub. rewrite load_weights_motion_only. cbn zeta.
    rewrite (path_nonempty path Hpath), (right_id_L ∅ (∪)).
    rewrite unexpected_empty by exact Hsub. cbn [length Nat.eqb].
    eexists. split; [reflexivity |]. split.
    + apply set_eq. intros j. rewrite !elem_of_dom. cbn [ap_unet].
      rewrite load_state_dict_lookup. now rewrite fmap_is_Some.
    + intros j. cbn [ap_unet]. apply load_state_dict_lookup.
Qed.

(** C5: with an empty [motion_module_path] and every other source empty,
    [load_weights] returns the pipeline with every parameter unchanged;
    the same holds for a checkpoint file that holds no motion-module
    entry. *)
Theorem load_weights_empty_identity ext ap (alpha : scale) :
  load_weights ext ap "" [] "" "" alpha = Ok ap /\
  (forall path : string,
     motion_module_filter (unwrap_state_dict (torch_load ext path)) = ∅ ->
     load_weights ext ap path [] "" "" alpha = Ok ap).
Proof.
  assert (Hid : forall sd, sd = ∅ ->
    (if (length (load_state_dict (ap_unet ap) sd).2.2 =? 0)%nat
     then Ok {| ap_unet := (load_state_dict (ap_unet ap) sd).1;
                ap_vae := ap_vae ap; ap_text_encoder := ap_text_encoder ap |}
     else Raise AssertionError) = Ok ap).
  { intros sd ->.
    rewrite unexpected_empty by (rewrite dom_empty_L; apply empty_subseteq).
    rewrite load_state_dict_empty. now destruct ap. }
  split.
  - rewrite load_weights_motion_only. now apply Hid.
  - intros path Hempty. rewrite load_weights_motion_only. apply Hid.
    destruct (negb (String.eqb path "")); [| reflexivity].
    rewrite Hempty. apply (left_id_L ∅ (∪)).
Qed.
End MergeFacts.

Lemma load_weights_unexpected_key_witness :
  let ext := const_externals (Wrapped {[ "motion_modules.0.weight" := 7%Z ]}) in
  "mm.ckpt" <> "" /\
  is_Some (unwrap_state_dict (torch_load ext "mm.ckpt") !! "motion_modules.0.weight") /\
  contains "motion_modules." "motion_modules.0.weight" = true /\
  ap_unet small_pipeline !! "motion_modules.0.weight" = None /\
  load_weights ext small_pipeline "mm.ckpt" [] "" "" (8 # 10)%Q = Raise AssertionError.
Proof.
  intros ext.
  assert (H1 : "mm.ckpt" <> "") by discriminate.
  assert (H2 : is_Some (unwrap_state_dict (torch_load ext "mm.ckpt")
                          !! "motion_modules.0.weight")).
  { exists 7%Z. reflexivity. }
  assert (H3 : contains "motion_modules." "motion_modules.0.weight" = true)
    by reflexivity.
  assert (H4 : ap_unet small_pipeline !! "motion_modules.0.weight" = None)
    by reflexivity.
  repeat (split; [assumption |]).
  exact (proj1 (load_weights_unexpected_key ext small_pipeline "mm.ckpt" [] "" ""
                  (8 # 10)%Q "motion_modules.0.weight" H1 H2 H3 H4)).
Defined.

Lemma load_weights_empty_identity_witness :
  let ext := const_externals (Bare {[ "conv_in.weight" := 3%Z ]}) in
  load_weights ext small_pipeline "" [] "" "" (8 # 10)%Q = Ok small_pipeline /\
  motion_module_filter (unwrap_state_dict (torch_load ext "base.ckpt")) = ∅ /\
  load_weights ext small_pipeline "base.ckpt" [] "" "" (8 # 10)%Q = Ok small_pipeline.
Proof.
  intros ext.
  assert (Hempty :
    motion_module_filter (unwrap_state_dict (torch_load ext "base.ckpt")) = ∅).
  { apply map_filter_singleton_False. cbn. discriminate. }
  destruct (load_weights_empty_identity ext small_pipeline (8 # 10)%Q) as [Hid Hfile].
  split; [exact Hid |]. split; [exact Hempty |].
  exact (Hfile "base.ckpt" Hempty).
Defined.

(** ** Video export *)

(** C8: without an explicit [fps], [save_videos_grid] writes at
    [video_length // 2] frames per second, and at 1 when that is smaller
    (so for [video_length <= 1]); four frames are written at 2. *)
Theorem save_videos_grid_default_fps :
  forall (grid timeslice : Type) (render : timeslice -> bool -> nat -> grid)
         (videos : list timeslice) (path : string) (rescale : bool) (n_rows : nat),
    ms_fps (save_videos_grid render videos path rescale n_rows None)
      = Z.max 1 (Z.of_nat (length videos) / 2) /\
    ((length videos <= 1)%nat ->
     ms_fps (save_videos_grid render videos path rescale n_rows None) = 1) /\
    (length videos = 4%nat ->
     ms_fps (save_videos_grid render videos path rescale n_rows None) = 2).
Proof.
  intros grid timeslice render videos path rescale n_rows.
  assert (Hfps : ms_fps (save_videos_grid render videos path rescale n_rows None)
                 = resolve_fps None (length videos)).
  { unfold save_videos_grid. now destruct (ends_with ".gif" path). }
  rewrite Hfps. unfold resolve_fps.
  destruct (Nat.ltb_spec 1 (length videos)) as [Hgt | Hle].
  - assert (1 <= Z.of_nat (length videos) / 2).
    { apply Z.div_le_lower_bound; lia. }
    split; [lia |]. split; [lia |].
    intros ->. reflexivity.
  - assert (Z.of_nat (length videos) / 2 = 0).
    { apply Z.div_small. lia. }
    split; [lia |]. split; [reflexivity | lia].
Qed.

Lemma save_videos_grid_default_fps_witness :
  (length [tt] <= 1)%nat /\
  ms_fps (save_videos_grid (fun _ _ _ => tt) [tt] "out/a.gif" true 6 None) = 1 /\
  length [tt; tt; tt; tt] = 4%nat /\
  ms_fps (save_videos_grid (fun _ _ _ => tt) [tt; tt; tt; tt] "out/a.gif" true 6 None) = 2.
Proof.
  assert (H1 : (length [tt] <= 1)%nat) by (cbn; lia).
  assert (H4 : length [tt; tt; tt; tt] = 4%nat) by reflexivity.
  split; [exact H1 |].
  split.
  - exact (proj1 (proj2 (save_videos_grid_default_fps unit unit (fun _ _ _ => tt)
                           [tt] "out/a.gif" true 6%nat)) H1).
  - split; [exact H4 |].
    exact (proj2 (proj2 (save_videos_grid_default_fps unit unit (fun _ _ _ => tt)
                           [tt; tt; tt; tt] "out/a.gif" true 6%nat)) H4).
Defined.

(** ** Crop geometry *)

Section CropFacts.
Local Open Scope Q_scope.

Lemma Qltb_lt (a b : Q) : Qltb a b = true <-> a < b.
Proof.
  unfold Qltb. rewrite Qlt_alt. destruct (a ?= b); split; congruence.
Qed.

Lemma Qltb_ge (a b : Q) : Qltb a b = false <-> b <= a.
Proof.
  rewrite <- Bool.not_true_iff_false, Qltb_lt. split; [apply Qnot_lt_le | apply Qle_not_lt].
Qed.

Lemma floordiv2_nonneg (x : Q) : 0 <= x -> 0 <= floordiv2 x.
Proof.
  intros Hx. unfold floordiv2.
  change 0 with (inject_Z 0). rewrite <- Zle_Qle.
  change 0%Z with (Qfloor 0). apply Qfloor_resp_le.
  unfold Qdiv. apply Qmult_le_0_compat; [exact Hx | discriminate].
Qed.

Lemma dim_pos (n : nat) : (0 < n)%nat -> 0 < dim n.
Proof.
  intros Hn. unfold dim. change 0 with (inject_Z 0). rewrite <- Zlt_Qlt. lia.
Qed.

(** Clipping a rectangle that meets the frame leaves a rectangle of
    positive size inside the frame. *)
Lemma clip_rect_ok (width height : nat) (r : rect) :
  (0 < width)%nat -> (0 < height)%nat ->
  rect_meets_frame width height r ->
  rect_in_frame width height (clip_rect width height r) /\
  rect_positive (clip_rect width height r).
Proof.
  intros Hw%dim_pos Hh%dim_pos.
  destruct r as [[[l t] r] b].
  unfold clip_rect, rect_in_frame, rect_positive, rect_meets_frame.
  intros (Hlr & Htb & HlW & Hr0 & HtH & Hb0).
  destruct (Q.max_spec l 0) as [[? El] | [? El]];
    destruct (Q.max_spec t 0) as [[? Et] | [? Et]];
    destruct (Q.min_spec r (dim width)) as [[? Er] | [? Er]];
    destruct (Q.min_spec b (dim height)) as [[? Eb] | [? Eb]];
    repeat split; Lqa.lra.
Qed.

(** Squaring only moves edges outward. *)
Lemma square_rect_expands (cr : rect) :
  let '(l, t, r, b) := cr in
  let '(l', t', r', b') := square_rect cr in
  l' <= l /\ t' <= t /\ r <= r' /\ b <= b'.
Proof.
  destruct cr as [[[l t] r] b]. unfold square_rect.
  destruct (Qltb (r - l) (b - t)) eqn:Hcmp.
  - apply Qltb_lt in Hcmp.
    pose proof (floordiv2_nonneg (b - t - (r - l))). Lqa.lra.
  - apply Qltb_ge in Hcmp.
    pose proof (floordiv2_nonneg (r - l - (b - t))). Lqa.lra.
Qed.

Lemma square_rect_meets (width height : nat) (cr : rect) :
  rect_meets_frame width height cr ->
  rect_meets_frame width height (square_rect cr).
Proof.
  pose proof (square_rect_expands cr) as Hexp.
  destruct cr as [[[l t] r] b].
  destruct (square_rect (l, t, r, b)) as [[[l' t'] r'] b'].
  cbn. intros (Hlr & Htb & HlW & Hr0 & HtH & Hb0).
  repeat split; Lqa.lra.
Qed.

(** C6 (amended): for a frame of positive size and a face rectangle of
    positive size that meets the frame, the crop rectangle of
    [crop_and_resize_tensor] and of [crop_move_face] (squared, then
    clipped) lies within the frame and has strictly positive width and
    height. *)
Theorem crop_rect_within_frame (width height : nat) (cr : rect)
    (center : option (Q * Q)) (is_get_head : bool) :
  (0 < width)%nat -> (0 < height)%nat ->
  rect_meets_frame width height cr ->
  (rect_in_frame width height
     (crop_and_resize_rect width height (Some cr) center) /\
   rect_positive (crop_and_resize_rect width height (Some cr) center)) /\
  (rect_in_frame width height
     (crop_move_face_rect width height (Some cr) is_get_head) /\
   rect_positive (crop_move_face_rect width height (Some cr) is_get_head)).
Proof.
  intros Hw Hh Hmeet.
  pose proof (square_rect_meets width height cr Hmeet) as Hsq.
  split.
  - unfold crop_and_resize_rect. now apply clip_rect_ok.
  - unfold crop_move_face_rect.
    destruct (square_rect cr) as [[[l t] r] b].
    destruct is_get_head.
    + apply clip_rect_ok; [assumption | assumption |].
      cbn in Hsq |- *. destruct Hsq as (Hlr & Htb & HlW & Hr0 & HtH & Hb0).
      repeat split; Lqa.lra.
    + now apply clip_rect_ok.
Qed.

Lemma crop_rect_within_frame_witness :
  (0 < 640)%nat /\ (0 < 480)%nat /\
  rect_meets_frame 640 480 (100, 100, 200, 150) /\
  (rect_in_frame 640 480
     (crop_and_resize_rect 640 480 (Some (100, 100, 200, 150)) None) /\
   rect_positive (crop_and_resize_rect 640 480 (Some (100, 100, 200, 150)) None)) /\
  (rect_in_frame 640 480
     (crop_move_face_rect 640 480 (Some (100, 100, 200, 150)) true) /\
   rect_positive (crop_move_face_rect 640 480 (Some (100, 100, 200, 150)) true)).
Proof.
  assert (Hw : (0 < 640)%nat) by lia.
  assert (Hh : (0 < 480)%nat) by lia.
  assert (Hm : rect_meets_frame 640 480 (100, 100, 200, 150)).
  { cbn. unfold dim. cbn. repeat split; reflexivity. }
  split; [exact Hw |]. split; [exact Hh |]. split; [exact Hm |].
  exact (crop_rect_within_frame 640 480 (100, 100, 200, 150) None true Hw Hh Hm).
Defined.

(** C6 as stated fails: a rectangle to the right of a 640 x 480 frame is
    squared and clipped to [left = 700 > right = 640]. *)
Lemma crop_rect_within_frame_counterexample :
  crop_and_resize_rect 640 480 (Some (700, 100, 800, 150)) None
    = (700, 75, 640, 175) /\
  ~ (rect_in_frame 640 480
       (crop_and_resize_rect 640 480 (Some (700, 100, 800, 150)) None) /\
     rect_positive
       (crop_and_resize_rect 640 480 (Some (700, 100, 800, 150)) None)).
Proof.
  assert (Heq : crop_and_resize_rect 640 480 (Some (700, 100, 800, 150)) None
                = (700, 75, 640, 175)) by (vm_compute; reflexivity).
  split; [exact Heq |]. rewrite Heq.
  intros [_ [Hlt _]]. vm_compute in Hlt. discriminate.
Qed.
End CropFacts.

(** ** Face detection *)

Lemma py_index_raises {A : Type} (l : list A) (i : Z) (e : exn) :
  py_index l i = Raise e -> e = IndexError.
Proof.
  unfold py_index.
  destruct ((_ <? 0) || (_ <=? _)); [congruence |].
  destruct (l !! _); congruence.
Qed.

Lemma face_rects_of_raises (i : nat) (all_rects : list rect) (ids : list Z) :
  forall (j : Z) (face_rects : list rect) (e : exn),
    face_rects_of i all_rects j ids face_rects = Raise e -> e = IndexError.
Proof.
  induction ids as [| id ids IH]; intros j face_rects e; cbn [face_rects_of].
  - discriminate.
  - destruct (Z.of_nat i =? id); [| apply IH].
    destruct (py_index all_rects j) as [r |] eqn:Hr; cbn.
    + apply IH.
    + intros [= <-]. eapply py_index_raises, Hr.
Qed.

Lemma face_rects_of_absent (i : nat) (all_rects : list rect) (ids : list Z) :
  Z.of_nat i ∉ ids ->
  forall (j : Z) (face_rects : list rect),
    face_rects_of i all_rects j ids face_rects = Ok face_rects.
Proof.
  induction ids as [| id ids IH]; intros Habs j face_rects; cbn [face_rects_of].
  - reflexivity.
  - apply not_elem_of_cons in Habs as [Hne Habs].
    destruct (Z.eqb_spec (Z.of_nat i) id); [contradiction |].
    now apply IH.
Qed.

Lemma union_faces_missing (ids : list Z) (all_rects : list rect)
    (frames : list nat) (i : nat) :
  i ∈ frames -> Z.of_nat i ∉ ids ->
  forall acc : rect, union_faces ids all_rects frames acc = Raise IndexError.
Proof.
  intros Hin Habs. induction frames as [| k frames IH]; intros acc.
  - inversion Hin.
  - cbn [union_faces].
    destruct (decide (k = i)) as [-> | Hne].
    + rewrite face_rects_of_absent by exact Habs. reflexivity.
    + apply elem_of_cons in Hin as [Heq | Hin]; [congruence |].
      destruct (face_rects_of k all_rects 0 ids []) as [face_rects | e] eqn:Hf; cbn.
      * match goal with
        | |- context [@py_index ?A face_rects ?z] =>
            destruct (@py_index A face_rects z) as [[[[l t] r] b] | e] eqn:Hr
        end; cbn.
        -- destruct acc as [[[al at_] ar] ab]. now apply IH.
        -- f_equal. eapply py_index_raises, Hr.
      * f_equal. eapply face_rects_of_raises, Hf.
Qed.

(** C10: when the detector reports some detections but none for a frame
    index [i] of the batch, [crop025_face] raises an index error (it reads
    [face_rects[0]] of an empty list) instead of falling back to the
    centre crop. *)
Theorem crop025_face_missing_frame {pixel : Type}
    (interpolate : frame pixel -> nat -> nat -> frame pixel)
    (pixel_values : frame pixel) (target_size : nat * nat)
    (detector : frame pixel -> detection) (ids : list Z) (i : nat) :
  image_ids (detector pixel_values) = Some ids ->
  ids <> [] ->
  (i < length pixel_values)%nat ->
  Z.of_nat i ∉ ids ->
  crop025_face interpolate pixel_values target_size true (Some detector)
    = Raise IndexError.
Proof.
  intros Hids Hne Hi Habs. unfold crop025_face. cbn. rewrite Hids.
  destruct ids as [| id ids]; [contradiction |]. cbn [length Nat.eqb negb orb].
  rewrite (union_faces_missing (id :: ids) _ (seq 0 (length pixel_values)) i).
  - reflexivity.
  - apply elem_of_seq. lia.
  - exact Habs.
Qed.

Lemma crop025_face_missing_frame_witness :
  image_ids (first_frame_only two_frames) = Some [0] /\
  [0] <> [] /\
  (1 < length two_frames)%nat /\
  (Z.of_nat 1 ∉ [0]) /\
  crop025_face nearest two_frames (512, 512)%nat true (Some first_frame_only)
    = Raise IndexError.
Proof.
  assert (H1 : image_ids (first_frame_only two_frames) = Some [0]) by reflexivity.
  assert (H2 : [0] <> @nil Z) by discriminate.
  assert (H3 : (1 < length two_frames)%nat) by (cbn; lia).
  assert (H4 : Z.of_nat 1 ∉ [0]).
  { intros Hin. apply list_elem_of_singleton in Hin. discriminate. }
  repeat (split; [assumption |]).
  exact (crop025_face_missing_frame nearest two_frames (512, 512)%nat
           first_frame_only [0] 1 H1 H2 H3 H4).
Defined.

(** ** Slices and the blacked-out frame *)

Lemma slice_bound_of_nat (n a : nat) : slice_bound n (Z.of_nat a) = (a `min` n)%nat.
Proof.
  unfold slice_bound. destruct (Z.ltb_spec (Z.of_nat a) 0); lia.
Qed.

Lemma py_slice_prefix_lookup {A : Type} (l : list A) (k i : nat) :
  (i < k)%nat -> py_slice l 0 (Z.of_nat k) !! i = l !! i.
Proof.
  intros Hi. unfold py_slice.
  rewrite (slice_bound_of_nat _ 0), slice_bound_of_nat. cbn [drop Nat.min].
  rewrite Nat.sub_0_r, lookup_take.
  case_decide as Hlt; [reflexivity |].
  symmetry. apply lookup_ge_None. lia.
Qed.

Section CanvasFacts.
Context {pixel : Type}.
Variable zero : pixel.

Lemma corner_image_lookup (img : image pixel) (y x : nat) :
  assign_image pixel (fmap (M := list) (fmap (M := list) (fun _ => zero)) img)
    (slice_image pixel img 0 2 0 2) 0 2 0 2 !! y ≫= (.!! x)
  = keep_corner pixel zero y x <$> (img !! y ≫= (.!! x)).
Proof.
  unfold assign_image, keep_corner.
  rewrite list_lookup_imap, length_fmap, !list_lookup_fmap.
  change 0 with (Z.of_nat 0). change 2 with (Z.of_nat 2).
  rewrite !slice_bound_of_nat, Nat.min_0_l.
  destruct (img !! y) as [row |] eqn:Hrow; [| reflexivity].
  apply lookup_lt_Some in Hrow as Hy.
  cbn [fmap option_fmap option_map mbind option_bind Nat.leb andb].
  rewrite length_fmap, !slice_bound_of_nat, Nat.min_0_l.
  replace (y <? 2 `min` length img)%nat with (y <? 2)%nat
    by (destruct (Nat.ltb_spec y 2), (Nat.ltb_spec y (2 `min` length img)); lia).
  destruct (Nat.ltb_spec y 2) as [Hy2 | Hy2].
  - rewrite list_lookup_imap, list_lookup_fmap.
    destruct (row !! x) as [v |] eqn:Hv; [| reflexivity].
    apply lookup_lt_Some in Hv as Hx.
    cbn [fmap option_fmap option_map Nat.leb andb].
    replace (x <? 2 `min` length row)%nat with (x <? 2)%nat
      by (destruct (Nat.ltb_spec x 2), (Nat.ltb_spec x (2 `min` length row)); lia).
    destruct (Nat.ltb_spec x 2) as [Hx2 | Hx2]; [| reflexivity].
    unfold slice_image. change (Z.of_nat 0) with 0.
    rewrite !Nat.sub_0_r, list_lookup_fmap.
    rewrite (py_slice_prefix_lookup img 2 y) by lia. rewrite Hrow.
    cbn [fmap option_fmap option_map mbind option_bind].
    rewrite (py_slice_prefix_lookup row 2 x) by lia. rewrite Hv. reflexivity.
  - rewrite list_lookup_fmap. now destruct (row !! x).
Qed.

Lemma corner_canvas_eq (f : frame pixel) :
  move_face_canvas pixel zero f (0, 0, 2, 2)%Q =
  fmap (M := list) (fmap (M := list) (fun img =>
    assign_image pixel (fmap (M := list) (fmap (M := list) (fun _ => zero)) img)
      (slice_image pixel img 0 2 0 2) 0 2 0 2)) f.
Proof.
  unfold move_face_canvas, assign_frame, zeros_like, slice_frame.
  change (py_int 0) with 0. change (py_int 2) with 2.
  rewrite zip_with_fmap_l, zip_with_fmap_r, zip_with_diag.
  apply list_fmap_ext. intros _ chans _.
  rewrite zip_with_fmap_l, zip_with_fmap_r, zip_with_diag. reflexivity.
Qed.

Lemma corner_canvas_pixel (f : frame pixel) (n c y x : nat) :
  pixel_at (move_face_canvas pixel zero f (0, 0, 2, 2)%Q) n c y x
  = keep_corner pixel zero y x <$> pixel_at f n c y x.
Proof.
  rewrite corner_canvas_eq. unfold pixel_at.
  rewrite list_lookup_fmap.
  destruct (f !! n) as [chans |]; [| reflexivity]. cbn.
  rewrite list_lookup_fmap.
  destruct (chans !! c) as [img |]; [| reflexivity]. cbn.
  apply corner_image_lookup.
Qed.

Lemma image_ext (a b : image pixel) :
  length a = length b ->
  (forall y ra rb, a !! y = Some ra -> b !! y = Some rb -> length ra = length rb) ->
  (forall y x, a !! y ≫= (.!! x) = b !! y ≫= (.!! x)) ->
  a = b.
Proof.
  intros Hlen Hrows Hpix. apply list_eq. intros y.
  destruct (a !! y) as [ra |] eqn:Ha, (b !! y) as [rb |] eqn:Hb.
  - f_equal. apply list_eq. intros x.
    specialize (Hpix y x). rewrite Ha, Hb in Hpix. exact Hpix.
  - apply lookup_lt_Some in Ha. apply lookup_ge_None in Hb. lia.
  - apply lookup_ge_None in Ha. apply lookup_lt_Some in Hb. lia.
  - reflexivity.
Qed.

(** An image that is black outside its top-left corner is left as it is. *)
Lemma corner_image_fixed (img : image pixel) :
  (forall y x v, img !! y ≫= (.!! x) = Some v -> (2 <= y \/ 2 <= x)%nat -> v = zero) ->
  assign_image pixel (fmap (M := list) (fmap (M := list) (fun _ => zero)) img)
    (slice_image pixel img 0 2 0 2) 0 2 0 2 = img.
Proof.
  intros Hzero. apply image_ext.
  - unfold assign_image. now rewrite length_imap, length_fmap.
  - intros y ra rb Ha Hb. unfold assign_image in Ha.
    rewrite list_lookup_imap, list_lookup_fmap, Hb in Ha.
    cbn [fmap option_fmap option_map] in Ha.
    destruct (_ && _) in Ha; injection Ha as <-;
      now rewrite ?length_imap, length_fmap.
  - intros y x. rewrite corner_image_lookup.
    destruct (img !! y ≫= (.!! x)) as [v |] eqn:Hv; [| reflexivity].
    cbn [fmap option_fmap option_map]. f_equal. unfold keep_corner.
    destruct (Nat.ltb_spec y 2), (Nat.ltb_spec x 2); try reflexivity;
      symmetry; apply (Hzero y x v Hv); lia.
Qed.

Lemma corner_canvas_fixed (f : frame pixel) :
  (forall n c y x v,
     pixel_at f n c y x = Some v -> (2 <= y \/ 2 <= x)%nat -> v = zero) ->
  move_face_canvas pixel zero f (0, 0, 2, 2)%Q = f.
Proof.
  intros Hzero. rewrite corner_canvas_eq.
  rewrite <- (list_fmap_id f) at 2. apply list_fmap_ext. intros n chans Hn.
  rewrite <- (list_fmap_id chans) at 2. apply list_fmap_ext. intros c img Hc.
  apply corner_image_fixed. intros y x v Hv Hout.
  apply (Hzero n c y x v); [| exact Hout].
  unfold pixel_at. rewrite Hn. cbn [mbind option_bind]. rewrite Hc. exact Hv.
Qed.
End CanvasFacts.

(** C9, amended: with [crop_rect=None], the frame that [crop_move_face]
    resizes (and then masks, when the mask is applied) has the input's
    pixels in rows 0-1 and columns 0-1 and zero everywhere else.  It
    differs from the input exactly when the input has a non-zero pixel
    outside that corner: an input that is zero outside the corner, such as
    any frame of at most 2 x 2 pixels, is kept as it is. *)
Theorem crop_move_face_without_rect {pixel : Type} (zero : pixel)
    (interpolate : frame pixel -> nat -> nat -> frame pixel)
    (f : frame pixel) (target_size : nat * nat)
    (use_mask_rate mask_rate color_jit_rate : Q) (is_get_head : bool)
    (cur_mask_rate : Q) (mask_rect_rate : nat -> nat -> Q) :
  let canvas :=
    move_face_canvas pixel zero f
      (crop_move_face_rect (frame_width f) (frame_height f) None is_get_head) in
  let frame_resized := interpolate canvas target_size.1 target_size.2 in
  crop_move_face zero interpolate f target_size None use_mask_rate mask_rate
    color_jit_rate is_get_head cur_mask_rate mask_rect_rate
    = (if negb (Qeq_bool mask_rate 0) && Qltb cur_mask_rate use_mask_rate
       then apply_mask zero frame_resized target_size.1 target_size.2
              (patch_mask target_size.1 target_size.2 mask_rect_rate mask_rate)
       else Ok frame_resized) /\
  (forall n c y x : nat,
     pixel_at canvas n c y x = keep_corner pixel zero y x <$> pixel_at f n c y x) /\
  (canvas = f <->
   forall (n c y x : nat) (v : pixel),
     pixel_at f n c y x = Some v -> (2 <= y \/ 2 <= x)%nat -> v = zero).
Proof.
  cbn zeta. change (crop_move_face_rect _ _ None is_get_head) with (0, 0, 2, 2)%Q.
  split; [| split; [| split]].
  - unfold crop_move_face. destruct target_size as [th tw]. reflexivity.
  - apply corner_canvas_pixel.
  - intros Heq n c y x v Hv Hout.
    pose proof (corner_canvas_pixel zero f n c y x) as Hpix.
    rewrite Heq, Hv in Hpix. cbn in Hpix. injection Hpix as Hpix.
    rewrite Hpix. unfold keep_corner.
    destruct (Nat.ltb_spec y 2), (Nat.ltb_spec x 2); try reflexivity; lia.
  - apply corner_canvas_fixed.
Qed.

Lemma crop_move_face_without_rect_witness :
  let canvas :=
    move_face_canvas Z 0 three_by_three
      (crop_move_face_rect (frame_width three_by_three)
         (frame_height three_by_three) None false) in
  pixel_at three_by_three 0 0 2 2 = Some 9 /\
  canvas = [[[[1; 2; 0]; [4; 5; 0]; [0; 0; 0]]]] /\
  canvas <> three_by_three.
Proof.
  intros canvas.
  assert (H1 : pixel_at three_by_three 0 0 2 2 = Some 9) by reflexivity.
  split; [exact H1 |]. split; [reflexivity |].
  intros Heq.
  pose proof (proj1 (proj2 (proj2 (crop_move_face_without_rect 0 nearest
                                     three_by_three (512, 512)%nat 0%Q 0%Q 0%Q
                                     false 0%Q (fun _ _ => 0%Q))))
                Heq 0%nat 0%nat 2%nat 2%nat 9 H1 (or_introl (le_n 2))) as H9.
  discriminate H9.
Defined.

(** C9 as stated fails: a frame of 2 x 2 pixels lies inside the corner that
    is kept, so the frame before resizing is the input itself, and at
    target size 2 x 2 the call returns the input unchanged. *)
Lemma crop_move_face_without_rect_counterexample :
  move_face_canvas Z 0 two_frames
    (crop_move_face_rect (frame_width two_frames) (frame_height two_frames)
       None false) = two_frames /\
  crop_move_face 0 nearest two_frames (2, 2)%nat None 0 0 0 false 0
    (fun _ _ => 0%Q) = Ok two_frames /\
  ~ (forall f : frame Z,
       move_face_canvas Z 0 f
         (crop_move_face_rect (frame_width f) (frame_height f) None false) <> f).
Proof.
  assert (Hcanvas :
    move_face_canvas Z 0 two_frames
      (crop_move_face_rect (frame_width two_frames) (frame_height two_frames)
         None false) = two_frames) by reflexivity.
  split; [exact Hcanvas |]. split; [reflexivity |].
  intros Hall. exact (Hall two_frames Hcanvas).
Qed.

(** ** The patch mask *)

Lemma set_patch_shape (h w : nat) (mask : list (list bool)) (ps i j : nat) :
  mask_shape h w mask -> mask_shape h w (set_patch mask ps i j).
Proof.
  intros [Hlen Hrows]. unfold set_patch. split.
  - now rewrite length_imap.
  - apply Forall_lookup. intros y row' Hrow'.
    rewrite list_lookup_imap in Hrow'.
    destruct (mask !! y) as [row |] eqn:Hrow; [| discriminate].
    pose proof (Forall_lookup_1 _ _ _ _ Hrows Hrow) as Hw.
    cbn in Hrow'. injection Hrow' as <-.
    destruct (_ && _); [now rewrite length_imap | exact Hw].
Qed.

Lemma clamp_range (a b n y : nat) :
  (y < n)%nat ->
  ((a `min` n <=? y) && (y <? b `min` n))%nat = ((a <=? y) && (y <? b))%nat.
Proof.
  intros Hy.
  destruct (Nat.leb_spec (a `min` n) y), (Nat.leb_spec a y),
    (Nat.ltb_spec y (b `min` n)), (Nat.ltb_spec y b); try reflexivity; lia.
Qed.

Lemma set_patch_at (mask : list (list bool)) (ps i j y x : nat) (v : bool) :
  mask_at mask y x = Some v ->
  mask_at (set_patch mask ps i j) y x = Some (v || in_patch ps i j y x).
Proof.
  unfold mask_at, set_patch, in_patch. intros Hv.
  rewrite list_lookup_imap.
  destruct (mask !! y) as [row |] eqn:Hrow; [| discriminate].
  apply lookup_lt_Some in Hrow as Hy.
  cbn [fmap option_fmap option_map mbind option_bind] in Hv |- *.
  apply lookup_lt_Some in Hv as Hx.
  rewrite !slice_bound_of_nat, (clamp_range _ _ _ y Hy).
  destruct ((i * ps <=? y) && (y <? (i + 1) * ps))%nat; cbn [andb].
  - rewrite list_lookup_imap, Hv. cbn [fmap option_fmap option_map].
    rewrite ?slice_bound_of_nat, (clamp_range _ _ _ x Hx).
    destruct ((j * ps <=? x) && (x <? (j + 1) * ps))%nat.
    + now rewrite Bool.orb_true_r.
    + now rewrite Bool.orb_false_r.
  - now rewrite Hv, Bool.orb_false_r.
Qed.

Section PatchLoops.
Variable c : nat -> nat -> bool.   (* the test [mask_rect_rate[i, j] < mask_rate] *)
Variable ps : nat.

Lemma patch_row_shape (h w i : nat) (js : list nat) :
  forall mask,
    mask_shape h w mask ->
    mask_shape h w
      (foldl (fun mask j => if c i j then set_patch mask ps i j else mask) mask js).
Proof.
  induction js as [| j js IH]; intros mask Hm; [exact Hm |].
  cbn. apply IH. destruct (c i j); [now apply set_patch_shape | exact Hm].
Qed.

Lemma patch_rows_shape (h w : nat) (rows js : list nat) :
  forall mask,
    mask_shape h w mask ->
    mask_shape h w
      (foldl (fun mask i =>
         foldl (fun mask j => if c i j then set_patch mask ps i j else mask) mask js)
         mask rows).
Proof.
  induction rows as [| i rows IH]; intros mask Hm; [exact Hm |].
  cbn. apply IH. now apply patch_row_shape.
Qed.

Lemma patch_row_at (i y x : nat) (js : list nat) :
  forall mask v,
    mask_at mask y x = Some v ->
    mask_at
      (foldl (fun mask j => if c i j then set_patch mask ps i j else mask) mask js)
      y x
    = Some (v || existsb (fun j => c i j && in_patch ps i j y x) js).
Proof.
  induction js as [| j js IH]; intros mask v Hv; cbn.
  - now rewrite Bool.orb_false_r.
  - rewrite Bool.orb_assoc. apply IH.
    destruct (c i j); cbn [andb].
    + now apply set_patch_at.
    + now rewrite Bool.orb_false_r.
Qed.

Lemma patch_rows_at (y x : nat) (rows js : list nat) :
  forall mask v,
    mask_at mask y x = Some v ->
    mask_at
      (foldl (fun mask i =>
         foldl (fun mask j => if c i j then set_patch mask ps i j else mask) mask js)
         mask rows)
      y x
    = Some (v || existsb (fun i =>
                    existsb (fun j => c i j && in_patch ps i j y x) js) rows).
Proof.
  induction rows as [| i rows IH]; intros mask v Hv; cbn.
  - now rewrite Bool.orb_false_r.
  - rewrite Bool.orb_assoc. apply IH. now apply patch_row_at.
Qed.
End PatchLoops.

Lemma blank_mask_shape (h w : nat) :
  mask_shape h w (replicate h (replicate w false)).
Proof.
  split; [apply length_replicate |].
  apply Forall_forall. intros row Hrow.
  apply elem_of_replicate in Hrow as [-> _]. apply length_replicate.
Qed.

Lemma blank_mask_at (h w y x : nat) :
  (y < h)%nat -> (x < w)%nat ->
  mask_at (replicate h (replicate w false)) y x = Some false.
Proof.
  intros Hy Hx. unfold mask_at.
  rewrite lookup_replicate_2 by exact Hy. cbn.
  now apply lookup_replicate_2.
Qed.

Lemma patch_mask_shape (th tw : nat) (rates : nat -> nat -> Q) (mask_rate : Q) :
  mask_shape th tw (patch_mask th tw rates mask_rate).
Proof.
  unfold patch_mask.
  apply (patch_rows_shape (fun i j => Qltb (rates i j) mask_rate)).
  apply blank_mask_shape.
Qed.

Lemma patch_mask_at (th tw : nat) (rates : nat -> nat -> Q) (mask_rate : Q)
    (y x : nat) :
  (y < th)%nat -> (x < tw)%nat ->
  mask_at (patch_mask th tw rates mask_rate) y x
  = Some (existsb (fun i =>
            existsb (fun j =>
              Qltb (rates i j) mask_rate
              && in_patch (th / num_patches_per_dim) i j y x)
              (seq 0 num_patches_per_dim))
            (seq 0 num_patches_per_dim)).
Proof.
  intros Hy Hx. unfold patch_mask.
  rewrite (patch_rows_at (fun i j => Qltb (rates i j) mask_rate) _ y x _ _ _ false).
  - reflexivity.
  - now apply blank_mask_at.
Qed.

(** Every position below [16 * patch_size] lies in a patch of the grid. *)
Lemma patch_cover (c : nat -> nat -> bool) (ps y x : nat) :
  (forall i j, c i j = true) ->
  (y < 16 * ps)%nat -> (x < 16 * ps)%nat ->
  existsb (fun i => existsb (fun j => c i j && in_patch ps i j y x) (seq 0 16))
    (seq 0 16) = true.
Proof.
  intros Hc Hy Hx.
  assert (Hps : ps <> 0%nat) by (clear - Hy; lia).
  assert (Hrange : forall z, (z < 16 * ps)%nat ->
            In (z / ps)%nat (seq 0 16) /\
            (z / ps * ps <=? z)%nat = true /\
            (z <? (z / ps + 1) * ps)%nat = true).
  { intros z Hz. split; [| split].
    - apply in_seq. split; [apply Nat.le_0_l |].
      apply Nat.Div0.div_lt_upper_bound. rewrite Nat.mul_comm. exact Hz.
    - apply Nat.leb_le. rewrite Nat.mul_comm. now apply Nat.Div0.mul_div_le.
    - apply Nat.ltb_lt. rewrite Nat.add_1_r, Nat.mul_comm.
      now apply Nat.mul_succ_div_gt. }
  destruct (Hrange y Hy) as (Hiy & Hy1 & Hy2).
  destruct (Hrange x Hx) as (Hix & Hx1 & Hx2).
  apply existsb_exists. exists (y / ps)%nat. split; [exact Hiy |].
  apply existsb_exists. exists (x / ps)%nat. split; [exact Hix |].
  unfold in_patch. now rewrite Hc, Hy1, Hy2, Hx1, Hx2.
Qed.

Lemma patch_mask_covered (th tw : nat) (rates : nat -> nat -> Q) (mask_rate : Q) :
  (forall i j, Qltb (rates i j) mask_rate = true) ->
  (th <= 16 * (th / 16))%nat -> (tw <= 16 * (th / 16))%nat ->
  forall y x, (y < th)%nat -> (x < tw)%nat ->
  mask_at (patch_mask th tw rates mask_rate) y x = Some true.
Proof.
  intros Hc Hth Htw y x Hy Hx.
  rewrite (patch_mask_at th tw rates mask_rate y x Hy Hx). f_equal.
  apply (patch_cover (fun i j => Qltb (rates i j) mask_rate)); [exact Hc | |].
  - exact (Nat.lt_le_trans _ _ _ Hy Hth).
  - exact (Nat.lt_le_trans _ _ _ Hx Htw).
Qed.

Lemma mask_all_true (h w : nat) (mask : list (list bool)) :
  mask_shape h w mask ->
  (forall y x, (y < h)%nat -> (x < w)%nat -> mask_at mask y x = Some true) ->
  mask = replicate h (replicate w true).
Proof.
  intros [Hlen Hrows] Hat. symmetry.
  apply replicate_as_Forall. split; [exact Hlen |].
  apply Forall_lookup. intros y row Hrow.
  apply lookup_lt_Some in Hrow as Hy. rewrite Hlen in Hy.
  pose proof (Forall_lookup_1 _ _ _ _ Hrows Hrow) as Hw.
  apply replicate_as_Forall. split; [exact Hw |].
  apply Forall_lookup. intros x v Hv.
  apply lookup_lt_Some in Hv as Hx. rewrite Hw in Hx.
  specialize (Hat y x Hy Hx). unfold mask_at in Hat. rewrite Hrow in Hat.
  cbn [mbind option_bind] in Hat. congruence.
Qed.

Lemma patch_mask_full (th tw : nat) (rates : nat -> nat -> Q) (mask_rate : Q) :
  (forall i j, Qltb (rates i j) mask_rate = true) ->
  (th <= 16 * (th / 16))%nat -> (tw <= 16 * (th / 16))%nat ->
  patch_mask th tw rates mask_rate = replicate th (replicate tw true).
Proof.
  intros Hc Hth Htw. apply mask_all_true.
  - apply patch_mask_shape.
  - now apply patch_mask_covered.
Qed.

Section MaskFacts.
Context {pixel : Type}.
Variable zero : pixel.

Lemma full_mask_image (h w : nat) (img : image pixel) :
  image_has_shape h w img = true ->
  zip_with (zip_with (fun v (m : bool) => if m then zero else v)) img
    (replicate h (replicate w true))
  = fmap (M := list) (fmap (M := list) (fun _ => zero)) img.
Proof.
  unfold image_has_shape. intros [Hh Hrows]%andb_prop.
  apply Nat.eqb_eq in Hh.
  rewrite zip_with_replicate_r_eq by exact Hh.
  apply list_fmap_ext. intros y row Hrow. unfold flip.
  rewrite forallb_forall in Hrows.
  assert (Hw : length row = w).
  { apply Nat.eqb_eq, Hrows, list_elem_of_In, list_elem_of_lookup. eauto. }
  now rewrite zip_with_replicate_r_eq by exact Hw.
Qed.

Lemma apply_full_mask (f : frame pixel) (h w : nat) :
  forallb (forallb (image_has_shape h w)) f = true ->
  apply_mask zero f h w (replicate h (replicate w true))
  = Ok (zeros_like pixel zero f).
Proof.
  intros Hshape. unfold apply_mask. rewrite Hshape. f_equal.
  unfold zeros_like. rewrite forallb_forall in Hshape.
  apply list_fmap_ext. intros n chans Hn.
  assert (Hchans : forallb (image_has_shape h w) chans = true).
  { apply Hshape, list_elem_of_In, list_elem_of_lookup. eauto. }
  rewrite forallb_forall in Hchans.
  apply list_fmap_ext. intros c img Hc.
  apply full_mask_image, Hchans, list_elem_of_In, list_elem_of_lookup. eauto.
Qed.

(** C7: with [mask_rate = 1.0] and [use_mask_rate = 1.0] at the default
    512 x 512 target size, whatever values in [0, 1) the random draws
    take, every patch of the 16 x 16 grid is masked: the output is the
    resized frame with every pixel set to zero. *)
Theorem crop_move_face_full_mask
    (interpolate : frame pixel -> nat -> nat -> frame pixel)
    (f : frame pixel) (crop_rect : option rect) (color_jit_rate : Q)
    (is_get_head : bool) (cur_mask_rate : Q) (mask_rect_rate : nat -> nat -> Q) :
  let frame_resized :=
    interpolate
      (move_face_canvas pixel zero f
         (crop_move_face_rect (frame_width f) (frame_height f) crop_rect is_get_head))
      512%nat 512%nat in
  forallb (forallb (image_has_shape 512 512)) frame_resized = true ->
  (cur_mask_rate < 1)%Q ->
  (forall i j, (mask_rect_rate i j < 1)%Q) ->
  crop_move_face zero interpolate f (512, 512)%nat crop_rect 1 1 color_jit_rate
    is_get_head cur_mask_rate mask_rect_rate
  = Ok (zeros_like pixel zero frame_resized) /\
  (forall (n c y x : nat) (v : pixel),
     pixel_at (zeros_like pixel zero frame_resized) n c y x = Some v -> v = zero).
Proof.
  intros frame_resized Hshape Hcur Hrates. split.
  - unfold crop_move_face. fold frame_resized.
    apply Qltb_lt in Hcur. rewrite Hcur.
    change (negb (Qeq_bool 1 0) && true) with true. cbn match.
    rewrite patch_mask_full.
    + now apply apply_full_mask.
    + intros i j. apply Qltb_lt, Hrates.
    + cbn. lia.
    + cbn. lia.
  - intros n c y x v. unfold pixel_at, zeros_like.
    rewrite list_lookup_fmap.
    destruct (frame_resized !! n) as [chans |]; [| discriminate]. cbn.
    rewrite list_lookup_fmap.
    destruct (chans !! c) as [img |]; [| discriminate]. cbn.
    rewrite list_lookup_fmap.
    destruct (img !! y) as [row |]; [| discriminate]. cbn.
    rewrite list_lookup_fmap.
    destruct (row !! x); [| discriminate]. cbn. congruence.
Qed.
End MaskFacts.

Lemma nearest_has_shape (f : frame Z) (h w : nat) :
  forallb (forallb (image_has_shape h w)) (nearest f h w) = true.
Proof.
  unfold nearest. apply forallb_forall. intros chans Hchans.
  apply list_elem_of_In, list_elem_of_fmap in Hchans as (chans0 & -> & _).
  apply forallb_forall. intros img Himg.
  apply list_elem_of_In, list_elem_of_fmap in Himg as (img0 & -> & _).
  unfold image_has_shape, nearest_image.
  rewrite length_fmap, length_seq, Nat.eqb_refl. cbn [andb].
  apply forallb_forall. intros row Hrow.
  apply list_elem_of_In, list_elem_of_fmap in Hrow as (y & -> & _).
  rewrite length_fmap, length_seq. apply Nat.eqb_refl.
Qed.

Lemma crop_move_face_full_mask_witness :
  let frame_resized :=
    nearest
      (move_face_canvas Z 0 three_by_three
         (crop_move_face_rect (frame_width three_by_three)
            (frame_height three_by_three) (Some (0, 0, 2, 2)%Q) false))
      512%nat 512%nat in
  forallb (forallb (image_has_shape 512 512)) frame_resized = true /\
  (0 < 1)%Q /\
  (forall i j : nat, ((fun _ _ => 1 # 2) i j < 1)%Q) /\
  crop_move_face 0 nearest three_by_three (512, 512)%nat (Some (0, 0, 2, 2)%Q)
    1 1 0 false 0 (fun _ _ => 1 # 2)%Q
  = Ok (zeros_like Z 0 frame_resized).
Proof.
  intros frame_resized.
  assert (H1 : forallb (forallb (image_has_shape 512 512)) frame_resized = true)
    by apply nearest_has_shape.
  assert (H2 : (0 < 1)%Q) by reflexivity.
  assert (H3 : forall i j : nat, ((fun _ _ => 1 # 2) i j < 1)%Q)
    by (intros i j; reflexivity).
  split; [exact H1 |]. split; [exact H2 |]. split; [exact H3 |].
  exact (proj1 (crop_move_face_full_mask 0 nearest three_by_three
                  (Some (0, 0, 2, 2)%Q) 0%Q false 0%Q (fun _ _ => 1 # 2)%Q
                  H1 H2 H3)).
Defined.

(** * Further properties *)

(** ** Image padding *)

(** X1: [pad_image] returns a square image whose side is the longer side
    of the input, with the input centred in it: the border before the
    image is never negative and the border after it is equal to it or one
    pixel larger. *)
Theorem pad_image_square (width height : Z) :
  let '((width', height'), (x, y)) := pad_image (width, height) in
  width' = Z.max width height /\ height' = Z.max width height /\
  0 <= x <= width' - width - x /\ width' - width - x <= x + 1 /\
  0 <= y <= height' - height - y /\ height' - height - y <= y + 1.
Proof.
  unfold pad_image, pad_image_padding, expand.
  destruct (Z.ltb_spec width height) as [Hlt | Hge]; cbn zeta.
  - pose proof (Z.div_mod (height - width) 2 ltac:(lia)) as Hdm.
    pose proof (Z.mod_pos_bound (height - width) 2 ltac:(lia)) as Hb.
    repeat split; lia.
  - pose proof (Z.div_mod (width - height) 2 ltac:(lia)) as Hdm.
    pose proof (Z.mod_pos_bound (width - height) 2 ltac:(lia)) as Hb.
    repeat split; lia.
Qed.

(** ** Rank-zero printing *)

(** X2: [zero_rank_print] never prints: its condition asks that the
    process group be both uninitialised and initialised. *)
Theorem zero_rank_print_silent (is_initialized : bool) (get_rank : Z) (s : string) :
  zero_rank_print is_initialized get_rank s = [].
Proof.
  unfold zero_rank_print. now destruct is_initialized.
Qed.

(** ** Truncation to integers *)

Lemma py_int_nonneg (q : Q) : (0 <= q)%Q -> py_int q = Qfloor q.
Proof.
  intros Hq. unfold py_int. now rewrite (proj2 (Qltb_ge q 0) Hq).
Qed.

Lemma py_int_bounds (q : Q) (n : Z) :
  (0 <= q)%Q -> (q <= inject_Z n)%Q -> 0 <= py_int q <= n.
Proof.
  intros H0 Hn. rewrite (py_int_nonneg q H0). split.
  - change 0 with (Qfloor 0). now apply Qfloor_resp_le.
  - rewrite <- (Qfloor_Z n). now apply Qfloor_resp_le.
Qed.



(** ** Aspect-ratio padding *)

Section AspectFacts.
Local Open Scope Q_scope.

Lemma aspect_shrinks_width (W : Z) (ar : Q) :
  (0 <= W)%Z -> 0 < ar -> ar <= 1 -> (0 <= py_int (ar * inject_Z W) <= W)%Z.
Proof.
  intros HW Har Hle.
  assert (HWq : 0 <= inject_Z W) by (change 0 with (inject_Z 0); now rewrite <- Zle_Qle).
  apply py_int_bounds.
  - apply Qmult_le_0_compat; [now apply Qlt_le_weak | exact HWq].
  - rewrite <- (Qmult_1_l (inject_Z W)) at 2.
    now apply Qmult_le_compat_r.
Qed.

Lemma aspect_shrinks_height (H : Z) (ar : Q) :
  (0 <= H)%Z -> 1 < ar -> (0 <= py_int (inject_Z H / ar) <= H)%Z.
Proof.
  intros HH Har.
  assert (HHq : 0 <= inject_Z H) by (change 0 with (inject_Z 0); now rewrite <- Zle_Qle).
  assert (Hpos : 0 < ar) by Lqa.lra.
  apply py_int_bounds.
  - apply Qle_shift_div_l; [exact Hpos |]. Lqa.lra.
  - apply Qle_shift_div_r; [exact Hpos |].
    rewrite <- (Qmult_1_r (inject_Z H)) at 1.
    rewrite (Qmult_comm (inject_Z H) 1), (Qmult_comm (inject_Z H) ar).
    apply Qmult_le_compat_r; [now apply Qlt_le_weak | exact HHq].
Qed.

(** X3: for a tensor image of height [H] and width [W] and a positive
    aspect ratio other than 1, the resize-then-pad step of
    [apply_transforms] computes a size and paddings that give back an
    image of the original size:
    the resized image is no larger than the original, no padding is
    negative, the paddings add up to the size lost, and the image is
    centred (the right and bottom paddings exceed the left and top ones by
    at most one pixel). *)
Theorem aspect_resize_pad_restores (H W : Z) (ar : Q)
    (size : Z * Z) (padding : Z * Z * Z * Z) :
  (0 <= H)%Z -> (0 <= W)%Z -> 0 < ar ->
  aspect_resize_pad H W ar = Some (size, padding) ->
  let '(left_pad, top_pad, right_pad, bottom_pad) := padding in
  padded_size size padding = (H, W) /\
  (0 <= size.1 <= H /\ 0 <= size.2 <= W)%Z /\
  (0 <= left_pad <= right_pad /\ right_pad <= left_pad + 1)%Z /\
  (0 <= top_pad <= bottom_pad /\ bottom_pad <= top_pad + 1)%Z.
Proof.
  intros HH HW Har. unfold aspect_resize_pad.
  destruct (Qneb ar 1); [| discriminate].
  destruct (Qle_bool ar 1) eqn:Hle; intros [= <- <-]; unfold padded_size; cbn [fst snd].
  - apply Qle_bool_iff in Hle.
    pose proof (aspect_shrinks_width W ar HW Har Hle) as Hrw.
    set (rw := py_int (ar * inject_Z W)) in *.
    pose proof (Z.div_mod (W - rw) 2 ltac:(lia)) as Hdm.
    pose proof (Z.mod_pos_bound (W - rw) 2 ltac:(lia)) as Hb.
    replace (H - H)%Z with 0%Z by lia. change (0 / 2)%Z with 0%Z.
    split; [f_equal; lia |]. clear Hle Har. repeat split; lia.
  - assert (Hgt : 1 < ar).
    { apply Qnot_le_lt. intros Hc. apply Qle_bool_iff in Hc. congruence. }
    pose proof (aspect_shrinks_height H ar HH Hgt) as Hrh.
    set (rh := py_int (inject_Z H / ar)) in *.
    pose proof (Z.div_mod (H - rh) 2 ltac:(lia)) as Hdm.
    pose proof (Z.mod_pos_bound (H - rh) 2 ltac:(lia)) as Hb.
    replace (W - W)%Z with 0%Z by lia. change (0 / 2)%Z with 0%Z.
    split; [f_equal; lia |]. clear Hle Har Hgt. repeat split; lia.
Qed.

Lemma aspect_resize_pad_restores_witness :
  (0 <= 512)%Z /\ (0 <= 640)%Z /\ 0 < (8 # 10) /\
  aspect_resize_pad 512 640 (8 # 10) = Some ((512, 512)%Z, (64, 0, 64, 0)%Z) /\
  padded_size (512, 512)%Z (64, 0, 64, 0)%Z = (512, 640)%Z.
Proof.
  assert (H1 : (0 <= 512)%Z) by lia.
  assert (H2 : (0 <= 640)%Z) by lia.
  assert (H3 : 0 < (8 # 10)) by reflexivity.
  assert (H4 : aspect_resize_pad 512 640 (8 # 10)
               = Some ((512, 512)%Z, (64, 0, 64, 0)%Z)) by reflexivity.
  split; [exact H1 |]. split; [exact H2 |]. split; [exact H3 |].
  split; [exact H4 |].
  exact (proj1 (aspect_resize_pad_restores 512 640 (8 # 10) (512, 512)%Z
                  (64, 0, 64, 0)%Z H1 H2 H3 H4)).
Defined.

(** ** Landmark patches *)

Lemma dim_nonneg (n : nat) : 0 <= dim n.
Proof.
  unfold dim. change 0 with (inject_Z 0). rewrite <- Zle_Qle. lia.
Qed.


End AspectFacts.

(** ** The inversion trajectory *)

Section TrajectoryFacts.
Context {S T : Type} `{TensorOps S T}.
Context {Emb : Type}.

Lemma ddim_iter_extends (p : pipeline T Emb) (sch : scheduler S) (cond : Emb)
    (idx : list nat) :
  forall (latent : T) (acc l : list T),
    ddim_iter p sch cond idx latent acc = Ok l ->
    exists rest, l = acc ++ rest /\ length rest = length idx.
Proof.
  induction idx as [| i idx IH]; intros latent acc l; cbn [ddim_iter].
  - intros [= <-]. exists []. now rewrite app_nil_r.
  - destruct (py_index (timesteps sch) _) as [t |]; [| discriminate]. cbn.
    destruct (next_step _ t latent sch) as [latent' |]; [| discriminate]. cbn.
    intros Hl. destruct (IH _ _ _ Hl) as (rest & -> & Hlen).
    exists (latent' :: rest). rewrite <- app_assoc. cbn. now rewrite Hlen.
Qed.

Lemma ddim_iter_steps (p : pipeline T Emb) (sch : scheduler S) (cond : Emb)
    (n : nat) :
  forall (k : nat) (latent : T) (acc l : list T),
    length acc = Datatypes.S k -> acc !! k = Some latent ->
    ddim_iter p sch cond (seq k n) latent acc = Ok l ->
    forall i, (k <= i < k + n)%nat ->
    exists t x y,
      py_index (timesteps sch)
        (Z.of_nat (length (timesteps sch)) - Z.of_nat i - 1) = Ok t /\
      l !! i = Some x /\ l !! Datatypes.S i = Some y /\
      next_step (unet p x t cond) t x sch = Ok y.
Proof.
  induction n as [| n IH]; intros k latent acc l Hlen Hlast Hrun i Hi; [lia |].
  cbn [seq ddim_iter] in Hrun.
  destruct (py_index (timesteps sch) _) as [t |] eqn:Ht; [| discriminate].
  cbn in Hrun.
  destruct (next_step _ t latent sch) as [latent' |] eqn:Hstep; [| discriminate].
  cbn in Hrun.
  destruct (ddim_iter_extends _ _ _ _ _ _ _ Hrun) as (rest & -> & _).
  destruct (decide (i = k)) as [-> | Hne].
  - exists t, latent, latent'. split; [exact Ht |].
    rewrite <- app_assoc.
    split; [now rewrite lookup_app_l by lia |].
    split; [| exact Hstep].
    rewrite lookup_app_r by lia. rewrite Hlen, Nat.sub_diag. reflexivity.
  - apply (IH (Datatypes.S k) latent' (acc ++ [latent'])); [| | exact Hrun | lia].
    + rewrite length_app. cbn. lia.
    + rewrite lookup_app_r by lia. rewrite Hlen, Nat.sub_diag. reflexivity.
Qed.

(** X5: in a trajectory returned by [ddim_loop], every latent is obtained
    from the one before it by [next_step], at the noise predicted by the
    network under the prompt's embedding, the [i]-th step using the
    [i]-th timestep counted from the end of the schedule. *)
Theorem ddim_loop_steps (p : pipeline T Emb) (sch : scheduler S) (latent : T)
    (N : nat) (prompt : string) (all_latent : list T) :
  ddim_loop p sch latent N prompt = Ok all_latent ->
  forall i, (i < N)%nat ->
  exists t x y,
    py_index (timesteps sch)
      (Z.of_nat (length (timesteps sch)) - Z.of_nat i - 1) = Ok t /\
    all_latent !! i = Some x /\ all_latent !! Datatypes.S i = Some y /\
    next_step (unet p x t (encode_prompt p prompt)) t x sch = Ok y.
Proof.
  unfold ddim_loop. cbn. intros Hrun i Hi.
  apply (ddim_iter_steps p sch (encode_prompt p prompt) N 0 latent [latent]
           all_latent); [reflexivity | reflexivity | exact Hrun | lia].
Qed.

(** X6: [ddim_loop] cannot take more steps than twice the number of
    timesteps: beyond that the index [len - i - 1] leaves the schedule and
    the call raises. *)
Theorem ddim_loop_raises_beyond (p : pipeline T Emb) (sch : scheduler S)
    (latent : T) (N : nat) (prompt : string) :
  (2 * length (timesteps sch) < N)%nat ->
  exists e, ddim_loop p sch latent N prompt = Raise e.
Proof.
  intros HN. unfold ddim_loop. cbn.
  apply (ddim_iter_raises p sch _ (seq 0 N) (2 * length (timesteps sch))).
  - apply elem_of_seq. lia.
  - lia.
Qed.

Lemma ddim_iter_app (p : pipeline T Emb) (sch : scheduler S) (cond : Emb)
    (idx1 idx2 : list nat) :
  forall (latent : T) (acc : list T),
    last acc = Some latent ->
    ddim_iter p sch cond (idx1 ++ idx2) latent acc =
    l ← ddim_iter p sch cond idx1 latent acc;
    ddim_iter p sch cond idx2 (default latent (last l)) l.
Proof.
  induction idx1 as [| i idx1 IH]; intros latent acc Hlast; cbn [app ddim_iter].
  - cbn. now rewrite Hlast.
  - destruct (py_index (timesteps sch) _) as [t |]; [| reflexivity]. cbn.
    destruct (next_step _ t latent sch) as [latent' |]; [| reflexivity]. cbn.
    rewrite (IH latent' (acc ++ [latent'])) by apply last_snoc.
    destruct (ddim_iter p sch cond idx1 latent' (acc ++ [latent'])) as [l |] eqn:Hl;
      [| reflexivity].
    cbn. destruct (ddim_iter_extends _ _ _ _ _ _ _ Hl) as (rest & -> & _).
    rewrite <- app_assoc. cbn.
    destruct (last (acc ++ latent' :: rest)) eqn:Hl'; [reflexivity |].
    apply last_None in Hl'. now destruct acc.
Qed.

(** X7: trajectories are consistent: if [ddim_loop] returns for [N']
    steps, it returns for every [N <= N'], and gives the first [N + 1]
    latents of the longer trajectory. *)
Theorem ddim_loop_prefix (p : pipeline T Emb) (sch : scheduler S) (latent : T)
    (N N' : nat) (prompt : string) (all_latent : list T) :
  ddim_loop p sch latent N' prompt = Ok all_latent ->
  (N <= N')%nat ->
  ddim_loop p sch latent N prompt = Ok (take (N + 1) all_latent).
Proof.
  unfold ddim_loop. cbn. intros Hrun HN.
  replace N' with (N + (N' - N))%nat in Hrun by lia.
  rewrite seq_app, ddim_iter_app in Hrun by reflexivity.
  destruct (ddim_iter p sch (encode_prompt p prompt) (seq 0 N) latent [latent])
    as [l |] eqn:Hl; [| discriminate].
  cbn in Hrun.
  destruct (ddim_iter_extends _ _ _ _ _ _ _ Hl) as (rest & -> & Hlen).
  destruct (ddim_iter_extends _ _ _ _ _ _ _ Hrun) as (more & -> & _).
  f_equal. rewrite take_app_length'; [reflexivity |].
  cbn. rewrite Hlen, length_seq. lia.
Qed.

(** X8: on a scheduler whose [num_inference_steps] was never set, or is
    zero, the first inversion step fails: with a type error in the first
    case, a division by zero in the second. *)
Theorem ddim_loop_unset_steps (p : pipeline T Emb) (sch : scheduler S)
    (latent : T) (N : nat) (prompt : string) :
  timesteps sch <> [] -> (0 < N)%nat ->
  num_inference_steps sch = None \/ num_inference_steps sch = Some 0 ->
  ddim_loop p sch latent N prompt =
  Raise (match num_inference_steps sch with
         | None => TypeError
         | Some _ => ZeroDivisionError
         end).
Proof.
  intros Hts HN Hsteps. unfold ddim_loop. cbn.
  destruct N as [| N]; [lia |]. cbn [seq ddim_iter].
  destruct (py_index_in_range (timesteps sch)
              (Z.of_nat (length (timesteps sch)) - Z.of_nat 0 - 1))
    as [t [Ht _]].
  { destruct (timesteps sch); [contradiction | cbn; lia]. }
  rewrite Ht. cbn. unfold next_step, py_floordiv.
  destruct Hsteps as [-> | ->]; reflexivity.
Qed.
End TrajectoryFacts.

Lemma ddim_loop_steps_witness :
  let l := [[1%R]; ddim_recurrence (1 / 2)%R 1%R [1%R] [1%R]] in
  ddim_loop echo_pipeline two_step_scheduler [1%R] 1 "" = Ok l /\
  (0 < 1)%nat /\
  exists t x y,
    py_index (timesteps two_step_scheduler)
      (Z.of_nat (length (timesteps two_step_scheduler)) - Z.of_nat 0 - 1) = Ok t /\
    l !! 0%nat = Some x /\ l !! 1%nat = Some y /\
    next_step (unet echo_pipeline x t (encode_prompt echo_pipeline "")) t x
      two_step_scheduler = Ok y.
Proof.
  intros l.
  assert (H1 : ddim_loop echo_pipeline two_step_scheduler [1%R] 1 "" = Ok l)
    by reflexivity.
  assert (H2 : (0 < 1)%nat) by lia.
  split; [exact H1 |]. split; [exact H2 |].
  exact (ddim_loop_steps echo_pipeline two_step_scheduler [1%R] 1 "" l H1 0%nat H2).
Defined.

Lemma ddim_loop_raises_beyond_witness :
  (2 * length (timesteps two_step_scheduler) < 5)%nat /\
  exists e, ddim_loop echo_pipeline two_step_scheduler [1%R] 5 "" = Raise e.
Proof.
  assert (H1 : (2 * length (timesteps two_step_scheduler) < 5)%nat) by (cbn; lia).
  split; [exact H1 |].
  exact (ddim_loop_raises_beyond echo_pipeline two_step_scheduler [1%R] 5 "" H1).
Defined.

Lemma ddim_loop_prefix_witness :
  let l := [[1%R]; ddim_recurrence (1 / 2)%R 1%R [1%R] [1%R]] in
  ddim_loop echo_pipeline two_step_scheduler [1%R] 1 "" = Ok l /\
  (0 <= 1)%nat /\
  ddim_loop echo_pipeline two_step_scheduler [1%R] 0 "" = Ok (take (0 + 1) l).
Proof.
  intros l.
  assert (H1 : ddim_loop echo_pipeline two_step_scheduler [1%R] 1 "" = Ok l)
    by reflexivity.
  assert (H2 : (0 <= 1)%nat) by lia.
  split; [exact H1 |]. split; [exact H2 |].
  exact (ddim_loop_prefix echo_pipeline two_step_scheduler [1%R] 0 1 "" l H1 H2).
Defined.

Lemma ddim_loop_unset_steps_witness :
  timesteps fresh_scheduler <> [] /\ (0 < 3)%nat /\
  (num_inference_steps fresh_scheduler = None \/
   num_inference_steps fresh_scheduler = Some 0) /\
  ddim_loop echo_pipeline fresh_scheduler [1%R] 3 "" = Raise TypeError.
Proof.
  assert (H1 : timesteps fresh_scheduler <> []) by discriminate.
  assert (H2 : (0 < 3)%nat) by lia.
  assert (H3 : num_inference_steps fresh_scheduler = None \/
               num_inference_steps fresh_scheduler = Some 0) by (left; reflexivity).
  split; [exact H1 |]. split; [exact H2 |]. split; [exact H3 |].
  exact (ddim_loop_unset_steps echo_pipeline fresh_scheduler [1%R] 3 "" H1 H2 H3).
Defined.

(** ** Substrings and suffixes *)

Section StringFacts.
Local Open Scope string_scope.

Lemma prefix_app (p s : string) :
  String.prefix p s = true <-> exists post, s = p ++ post.
Proof.
  revert s. induction p as [| a p IH]; intros s.
  - split; [intros _; now exists s | intros _; now destruct s].
  - destruct s as [| b s]; cbn.
    + split; [discriminate | intros [post [=]]].
    + destruct (Ascii.ascii_dec a b) as [-> | Hne].
      * rewrite IH. split; intros [post Hpost]; exists post.
        -- now rewrite Hpost.
        -- now injection Hpost.
      * split; [discriminate |]. intros [post [= Hab _]]. congruence.
Qed.

Lemma contains_spec (needle s : string) :
  contains needle s = true <-> exists pre post, s = pre ++ needle ++ post.
Proof.
  induction s as [| c s IH].
  - cbn [contains]. rewrite Bool.orb_false_r, prefix_app. split.
    + intros [post Hpost]. now exists "", post.
    + intros (pre & post & Hs). destruct pre; [now exists post | discriminate].
  - cbn [contains]. rewrite Bool.orb_true_iff, prefix_app, IH. split.
    + intros [[post Hpost] | (pre & post & Hs)].
      * now exists "", post.
      * exists (String c pre), post. cbn. now rewrite Hs.
    + intros (pre & post & Hs). destruct pre as [| c' pre].
      * left. now exists post.
      * right. exists pre, post. now injection Hs.
Qed.





End StringFacts.

(** ** Loading a motion module *)

Section MotionFacts.
Context {tensor ldm_ckpt lora_ckpt text_model scale : Type}.
Implicit Types (ext : externals tensor ldm_ckpt lora_ckpt text_model scale).
Implicit Types (ap : animation_pipeline tensor text_model).

(** X9: the entries of a checkpoint that [load_weights] passes on to the
    denoising network are exactly those whose name has ["motion_modules."]
    as a substring. *)
Theorem motion_module_filter_substring (sd : gmap string tensor) (k : string)
    (v : tensor) :
  motion_module_filter sd !! k = Some v <->
  sd !! k = Some v /\
  exists pre post, k = (pre ++ "motion_modules." ++ post)%string.
Proof.
  unfold motion_module_filter. rewrite map_lookup_filter_Some. cbn.
  now rewrite contains_spec.
Qed.

Lemma motion_state_dict_eq ext (path : string) :
  path <> "" ->
  (if negb (String.eqb path "")
   then motion_module_filter (unwrap_state_dict (torch_load ext path)) ∪ ∅
   else ∅)
  = motion_module_filter (unwrap_state_dict (torch_load ext path)).
Proof.
  intros Hpath. rewrite (path_nonempty path Hpath). apply (right_id_L ∅ (∪)).
Qed.

Lemma not_subset_missing (sd module : gmap string tensor) :
  ~ dom sd ⊆ dom module ->
  exists k, is_Some (sd !! k) /\ module !! k = None.
Proof.
  intros Hnsub.
  destruct (decide (map_Forall (fun k _ => is_Some (module !! k)) sd))
    as [Hall | Hnall].
  - exfalso. apply Hnsub. intros k [v Hk]%elem_of_dom.
    apply elem_of_dom. exact (Hall k v Hk).
  - apply map_not_Forall in Hnall as (k & v & Hk & Hnone); [| apply _].
    exists k. split; [eauto |]. now apply eq_None_not_Some.
Qed.

Lemma load_weights_motion_subset ext ap ap' (path : string) (alpha : scale) :
  path <> "" ->
  load_weights ext ap path [] "" "" alpha = Ok ap' ->
  dom (motion_module_filter (unwrap_state_dict (torch_load ext path)))
    ⊆ dom (ap_unet ap).
Proof.
  intros Hpath Hload.
  destruct (decide (dom (motion_module_filter
                           (unwrap_state_dict (torch_load ext path)))
                    ⊆ dom (ap_unet ap))) as [Hsub | Hnsub]; [exact Hsub |].
  exfalso. rewrite load_weights_motion_only in Hload. cbn zeta in Hload.
  rewrite (motion_state_dict_eq ext path Hpath) in Hload.
  destruct (not_subset_missing _ _ Hnsub) as (k & Hk & Hnone).
  rewrite (unexpected_nonempty _ _ k Hk Hnone) in Hload. discriminate.
Qed.

(** X10: with only a motion module configured, [load_weights] returns
    exactly when every motion-module key of the checkpoint is a parameter
    of the denoising network; otherwise it fails its assertion. *)
Theorem load_weights_motion_outcome ext ap (path : string) (alpha : scale) :
  path <> "" ->
  let sd := motion_module_filter (unwrap_state_dict (torch_load ext path)) in
  ((exists ap', load_weights ext ap path [] "" "" alpha = Ok ap') <->
   dom sd ⊆ dom (ap_unet ap)) /\
  (load_weights ext ap path [] "" "" alpha = Raise AssertionError <->
   ~ dom sd ⊆ dom (ap_unet ap)).
Proof.
  intros Hpath sd. rewrite load_weights_motion_only. cbn zeta.
  rewrite (motion_state_dict_eq ext path Hpath). fold sd.
  destruct (decide (dom sd ⊆ dom (ap_unet ap))) as [Hsub | Hnsub].
  - rewrite (unexpected_empty _ _ Hsub). cbn [length Nat.eqb].
    split; split; try discriminate; try tauto; eauto.
  - destruct (not_subset_missing _ _ Hnsub) as (k & Hk & Hnone).
    rewrite (unexpected_nonempty _ _ k Hk Hnone).
    split; split; try tauto; try discriminate.
    intros [ap' [=]].
Qed.

Lemma merged_lookup (module sd : gmap string tensor) (k : string) :
  map_imap (fun k old => Some (default old (sd !! k))) module !! k =
  (fun old => default old (sd !! k)) <$> module !! k.
Proof. exact (load_state_dict_lookup module sd k). Qed.

(** X11: a successful motion-module load changes nothing but the
    motion-module parameters the checkpoint provides: the VAE and the text
    encoder are kept, the network has the same parameter names, a
    parameter whose name lacks ["motion_modules."] keeps its value, and a
    parameter the checkpoint provides takes the checkpoint's value. *)
Theorem load_weights_motion_frame ext ap ap' (path : string) (alpha : scale) :
  path <> "" ->
  load_weights ext ap path [] "" "" alpha = Ok ap' ->
  ap_vae ap' = ap_vae ap /\ ap_text_encoder ap' = ap_text_encoder ap /\
  dom (ap_unet ap') = dom (ap_unet ap) /\
  (forall k, contains "motion_modules." k = false ->
             ap_unet ap' !! k = ap_unet ap !! k) /\
  (forall k v, contains "motion_modules." k = true ->
               unwrap_state_dict (torch_load ext path) !! k = Some v ->
               ap_unet ap' !! k = Some v).
Proof.
  intros Hpath Hload.
  pose proof (load_weights_motion_subset ext ap ap' path alpha Hpath Hload)
    as Hsub.
  rewrite load_weights_motion_only in Hload. cbn zeta in Hload.
  rewrite (motion_state_dict_eq ext path Hpath) in Hload.
  rewrite (unexpected_empty _ _ Hsub) in Hload. cbn [length Nat.eqb] in Hload.
  injection Hload as <-. cbn [ap_vae ap_text_encoder ap_unet].
  set (sd := motion_module_filter (unwrap_state_dict (torch_load ext path))) in *.
  split; [reflexivity |]. split; [reflexivity |]. split; [| split].
  - apply set_eq. intros j. rewrite !elem_of_dom, merged_lookup.
    now rewrite fmap_is_Some.
  - intros k Hk. rewrite merged_lookup.
    assert (Hnone : sd !! k = None).
    { apply map_lookup_filter_None. right. intros v _. cbn. congruence. }
    rewrite Hnone. now destruct (ap_unet ap !! k).
  - intros k v Hk Hv. rewrite merged_lookup.
    assert (Hsome : sd !! k = Some v).
    { apply map_lookup_filter_Some. split; [exact Hv | exact Hk]. }
    rewrite Hsome.
    assert (Hin : is_Some (ap_unet ap !! k)).
    { apply elem_of_dom, Hsub, elem_of_dom. eauto. }
    destruct Hin as [old ->]. reflexivity.
Qed.

(** X12: loading the same motion module a second time changes nothing. *)
Theorem load_weights_motion_idempotent ext ap ap' (path : string) (alpha : scale) :
  load_weights ext ap path [] "" "" alpha = Ok ap' ->
  load_weights ext ap' path [] "" "" alpha = Ok ap'.
Proof.
  intros Hload. rewrite load_weights_motion_only in Hload |- *. cbn zeta in *.
  set (sd := if negb (String.eqb path "") then _ else ∅) in *.
  destruct (length (load_state_dict (ap_unet ap) sd).2.2 =? 0)%nat eqn:Hun;
    [| discriminate].
  injection Hload as <-.
  cbn [ap_unet ap_vae ap_text_encoder load_state_dict fst snd] in *.
  set (m' := map_imap (fun k old => Some (default old (sd !! k))) (ap_unet ap)).
  assert (Hdom : dom m' = dom (ap_unet ap)).
  { apply set_eq. intros j. unfold m'. rewrite !elem_of_dom, merged_lookup.
    now rewrite fmap_is_Some. }
  rewrite Hdom, Hun. do 2 f_equal.
  apply map_eq. intros k. unfold m'. rewrite !merged_lookup.
  destruct (ap_unet ap !! k) as [old |]; [| reflexivity]. cbn.
  now destruct (sd !! k).
Qed.

End MotionFacts.

Lemma load_weights_motion_outcome_witness :
  let ext := const_externals (Wrapped {[ "motion_modules.0.weight" := 7%Z ]}) in
  "mm.ckpt" <> "" /\
  ((exists ap', load_weights ext motion_pipeline "mm.ckpt" [] "" "" (8 # 10)%Q = Ok ap')
   <-> dom (motion_module_filter (unwrap_state_dict (torch_load ext "mm.ckpt")))
       ⊆ dom (ap_unet motion_pipeline)).
Proof.
  intros ext.
  assert (H1 : "mm.ckpt" <> "") by discriminate.
  split; [exact H1 |].
  exact (proj1 (load_weights_motion_outcome ext motion_pipeline "mm.ckpt"
                  (8 # 10)%Q H1)).
Defined.

Lemma load_weights_motion_loaded :
  load_weights (const_externals (Wrapped {[ "motion_modules.0.weight" := 7%Z ]}))
    motion_pipeline "mm.ckpt" [] "" "" (8 # 10)%Q
  = Ok {| ap_unet := {[ "conv_in.weight" := 1%Z; "motion_modules.0.weight" := 7%Z ]};
          ap_vae := ∅; ap_text_encoder := tt |}.
Proof. vm_compute. reflexivity. Qed.

Lemma load_weights_motion_frame_witness :
  let ext := const_externals (Wrapped {[ "motion_modules.0.weight" := 7%Z ]}) in
  let ap' := {| ap_unet := {[ "conv_in.weight" := 1%Z;
                              "motion_modules.0.weight" := 7%Z ]};
                ap_vae := ∅; ap_text_encoder := tt |} in
  "mm.ckpt" <> "" /\
  load_weights ext motion_pipeline "mm.ckpt" [] "" "" (8 # 10)%Q = Ok ap' /\
  ap_vae ap' = ap_vae motion_pipeline /\
  ap_text_encoder ap' = ap_text_encoder motion_pipeline /\
  dom (ap_unet ap') = dom (ap_unet motion_pipeline).
Proof.
  intros ext ap'.
  assert (H1 : "mm.ckpt" <> "") by discriminate.
  pose proof load_weights_motion_loaded as H2.
  split; [exact H1 |]. split; [exact H2 |].
  destruct (load_weights_motion_frame ext motion_pipeline ap' "mm.ckpt"
              (8 # 10)%Q H1 H2) as (Hvae & Htext & Hdom & _).
  split; [exact Hvae |]. split; [exact Htext | exact Hdom].
Defined.

Lemma load_weights_motion_idempotent_witness :
  let ext := const_externals (Wrapped {[ "motion_modules.0.weight" := 7%Z ]}) in
  let ap' := {| ap_unet := {[ "conv_in.weight" := 1%Z;
                              "motion_modules.0.weight" := 7%Z ]};
                ap_vae := ∅; ap_text_encoder := tt |} in
  load_weights ext motion_pipeline "mm.ckpt" [] "" "" (8 # 10)%Q = Ok ap' /\
  load_weights ext ap' "mm.ckpt" [] "" "" (8 # 10)%Q = Ok ap'.
Proof.
  intros ext ap'.
  pose proof load_weights_motion_loaded as H1.
  split; [exact H1 |].
  exact (load_weights_motion_idempotent ext motion_pipeline ap' "mm.ckpt"
           (8 # 10)%Q H1).
Defined.


(** ** Centre crops and squaring *)

Section CentreFacts.
Local Open Scope Q_scope.


Lemma floordiv2_inject (q : Q) (n : Z) :
  q == inject_Z n -> floordiv2 q == inject_Z (n / 2).
Proof.
  intros Hq. unfold floordiv2. rewrite Hq.
  unfold Qdiv, Qmult, Qinv, inject_Z, Qfloor. cbn.
  now rewrite Z.mul_1_r.
Qed.

Lemma dim_sub (a b : nat) :
  dim a - dim b == inject_Z (Z.of_nat a - Z.of_nat b).
Proof.
  unfold dim, Zminus. now rewrite inject_Z_plus, inject_Z_opp.
Qed.

(** Half of a non-negative integer, in the rationals. *)
Lemma half_bounds (n : Z) :
  (0 <= n)%Z ->
  0 <= inject_Z (n / 2) /\
  2 * inject_Z (n / 2) <= inject_Z n /\
  inject_Z n <= 2 * inject_Z (n / 2) + 1.
Proof.
  intros Hn.
  pose proof (Z.div_mod n 2 ltac:(lia)) as Hdm.
  pose proof (Z.mod_pos_bound n 2 ltac:(lia)) as Hb.
  change 2 with (inject_Z 2). change 1 with (inject_Z 1). change 0 with (inject_Z 0).
  rewrite <- inject_Z_mult, <- inject_Z_plus.
  repeat split; rewrite <- Zle_Qle; lia.
Qed.

(** X14: without a rectangle or a centre, [crop_and_resize_tensor] crops
    the centred square whose side is the shorter side of the frame: the
    crop lies in the frame, is as wide and as high as that side, and the
    margins on opposite sides differ by at most one pixel. *)
Theorem default_crop_centred (width height : nat) :
  let '(left_, top, right_, bottom) :=
    crop_and_resize_rect width height None None in
  rect_in_frame width height (left_, top, right_, bottom) /\
  right_ - left_ == Qmin (dim height) (dim width) /\
  bottom - top == Qmin (dim height) (dim width) /\
  (left_ <= dim width - right_ /\ dim width - right_ <= left_ + 1) /\
  (top <= dim height - bottom /\ dim height - bottom <= top + 1).
Proof.
  unfold crop_and_resize_rect, rect_in_frame.
  pose proof (dim_nonneg width) as Hw. pose proof (dim_nonneg height) as Hh.
  set (s := Qmin (dim height) (dim width)).
  assert (Hs : (height <= width)%nat /\ s == dim height \/
               (width <= height)%nat /\ s == dim width).
  { destruct (Q.min_spec (dim height) (dim width)) as [[Hlt Hs] | [Hle Hs]].
    - left. split; [| exact Hs]. unfold dim in Hlt.
      rewrite <- Zlt_Qlt in Hlt. lia.
    - right. split; [| exact Hs]. unfold dim in Hle.
      rewrite <- Zle_Qle in Hle. lia. }
  assert (Hx : exists n, (0 <= n)%Z /\ dim width - s == inject_Z n).
  { destruct Hs as [[Hle Hs] | [Hle Hs]].
    - exists (Z.of_nat width - Z.of_nat height)%Z. split; [lia |].
      rewrite Hs. apply dim_sub.
    - exists 0%Z. split; [lia |]. rewrite Hs. unfold Qminus. apply Qplus_opp_r. }
  assert (Hy : exists n, (0 <= n)%Z /\ dim height - s == inject_Z n).
  { destruct Hs as [[Hle Hs] | [Hle Hs]].
    - exists 0%Z. split; [lia |]. rewrite Hs. unfold Qminus. apply Qplus_opp_r.
    - exists (Z.of_nat height - Z.of_nat width)%Z. split; [lia |].
      rewrite Hs. apply dim_sub. }
  destruct Hx as (nx & Hnx & Ex). destruct Hy as (ny & Hny & Ey).
  pose proof (floordiv2_inject _ _ Ex) as Fx.
  pose proof (floordiv2_inject _ _ Ey) as Fy.
  destruct (half_bounds nx Hnx) as (Hx0 & Hx1 & Hx2).
  destruct (half_bounds ny Hny) as (Hy0 & Hy1 & Hy2).
  set (l := floordiv2 (dim width - s)) in *.
  set (t := floordiv2 (dim height - s)) in *.
  assert (Hs0 : 0 <= s) by (destruct Hs as [[_ Hs] | [_ Hs]]; rewrite Hs; assumption).
  repeat split; Lqa.lra.
Qed.

(** X15: with a centre inside the frame, [crop_and_resize_tensor] crops
    the largest square centred there that fits the frame: the crop lies in
    the frame, has the given centre, is as wide as it is high, and touches
    an edge of the frame. *)
Theorem centre_crop_square (width height : nat) (center_x center_y : Q) :
  0 <= center_x <= dim width -> 0 <= center_y <= dim height ->
  let '(left_, top, right_, bottom) :=
    crop_and_resize_rect width height None (Some (center_x, center_y)) in
  rect_in_frame width height (left_, top, right_, bottom) /\
  left_ + right_ == 2 * center_x /\ top + bottom == 2 * center_y /\
  right_ - left_ == bottom - top /\
  (left_ == 0 \/ top == 0 \/ right_ == dim width \/ bottom == dim height).
Proof.
  intros Hx Hy. unfold crop_and_resize_rect, rect_in_frame.
  set (d := Qmin (Qmin (Qmin center_x center_y) (dim width - center_x))
                 (dim height - center_y)).
  assert (Hd : 0 <= d /\ d <= center_x /\ d <= center_y /\
               d <= dim width - center_x /\ d <= dim height - center_y /\
               (d == center_x \/ d == center_y \/ d == dim width - center_x \/
                d == dim height - center_y)).
  { unfold d.
    destruct (Q.min_spec center_x center_y) as [[? E1] | [? E1]];
      destruct (Q.min_spec (Qmin center_x center_y) (dim width - center_x))
        as [[? E2] | [? E2]];
      destruct (Q.min_spec (Qmin (Qmin center_x center_y) (dim width - center_x))
                  (dim height - center_y)) as [[? E3] | [? E3]];
      repeat split; try Lqa.lra.
    all: first [ left; Lqa.lra | right; left; Lqa.lra
               | right; right; left; Lqa.lra | right; right; right; Lqa.lra ]. }
  destruct Hd as (Hd0 & Hdx & Hdy & HdW & HdH & Htouch).
  assert (El : Qmax (center_x - d) 0 == center_x - d).
  { destruct (Q.max_spec (center_x - d) 0) as [[? E] | [? E]]; Lqa.lra. }
  assert (Et : Qmax (center_y - d) 0 == center_y - d).
  { destruct (Q.max_spec (center_y - d) 0) as [[? E] | [? E]]; Lqa.lra. }
  assert (Er : Qmin (center_x + d) (dim width) == center_x + d).
  { destruct (Q.min_spec (center_x + d) (dim width)) as [[? E] | [? E]]; Lqa.lra. }
  assert (Eb : Qmin (center_y + d) (dim height) == center_y + d).
  { destruct (Q.min_spec (center_y + d) (dim height)) as [[? E] | [? E]]; Lqa.lra. }
  split; [repeat split; Lqa.lra |].
  split; [Lqa.lra |]. split; [Lqa.lra |]. split; [Lqa.lra |].
  destruct Htouch as [E | [E | [E | E]]].
  - left. Lqa.lra.
  - right. left. Lqa.lra.
  - right. right. left. Lqa.lra.
  - right. right. right. Lqa.lra.
Qed.

Lemma centre_crop_square_witness :
  0 <= 100 <= dim 640 /\ 0 <= 300 <= dim 480 /\
  crop_and_resize_rect 640 480 None (Some (100, 300)) = (0, 200, 200, 400) /\
  rect_in_frame 640 480 (0, 200, 200, 400).
Proof.
  assert (H1 : 0 <= 100 <= dim 640) by (split; discriminate).
  assert (H2 : 0 <= 300 <= dim 480) by (split; discriminate).
  split; [exact H1 |]. split; [exact H2 |].
  split; [vm_compute; reflexivity |].
  exact (proj1 (centre_crop_square 640 480 100 300 H1 H2)).
Defined.

End CentreFacts.

(** ** The blacked-out frame, for any rectangle *)

Lemma py_slice_lookup_nat {A : Type} (l : list A) (a b i : nat) :
  py_slice l (Z.of_nat a) (Z.of_nat b) !! i =
  if decide (i < (b `min` length l) - (a `min` length l))%nat
  then l !! ((a `min` length l) + i)%nat
  else None.
Proof.
  unfold py_slice. rewrite !slice_bound_of_nat, lookup_take.
  case_decide; [apply lookup_drop | reflexivity].
Qed.

Section RegionFacts.
Context {pixel : Type}.
Variable zero : pixel.

Lemma region_image_lookup (img : image pixel) (T B L R y x : nat) :
  assign_image pixel (fmap (M := list) (fmap (M := list) (fun _ => zero)) img)
    (slice_image pixel img (Z.of_nat T) (Z.of_nat B) (Z.of_nat L) (Z.of_nat R))
    (Z.of_nat T) (Z.of_nat B) (Z.of_nat L) (Z.of_nat R) !! y ≫= (.!! x)
  = (fun v => if ((T <=? y) && (y <? B))%nat && ((L <=? x) && (x <? R))%nat
              then v else zero)
    <$> (img !! y ≫= (.!! x)).
Proof.
  unfold assign_image.
  rewrite list_lookup_imap, length_fmap, !list_lookup_fmap, !slice_bound_of_nat.
  destruct (img !! y) as [row |] eqn:Hrow; [| reflexivity].
  apply lookup_lt_Some in Hrow as Hy.
  cbn [fmap option_fmap option_map mbind option_bind].
  rewrite length_fmap, ?slice_bound_of_nat, (clamp_range T B (length img) y Hy).
  destruct ((T <=? y) && (y <? B))%nat eqn:Hrows; cbn [andb].
  - rewrite list_lookup_imap, list_lookup_fmap.
    destruct (row !! x) as [v |] eqn:Hv; [| reflexivity].
    apply lookup_lt_Some in Hv as Hx.
    cbn [fmap option_fmap option_map].
    rewrite (clamp_range L R (length row) x Hx).
    destruct ((L <=? x) && (x <? R))%nat eqn:Hcols; [| reflexivity].
    apply andb_prop in Hrows as [HT%Nat.leb_le HB%Nat.ltb_lt].
    apply andb_prop in Hcols as [HL%Nat.leb_le HR%Nat.ltb_lt].
    unfold slice_image. rewrite list_lookup_fmap, py_slice_lookup_nat.
    case_decide as Hin; [| lia].
    replace (T `min` length img + (y - T `min` length img))%nat with y by lia.
    rewrite Hrow. cbn [fmap option_fmap option_map mbind option_bind].
    rewrite py_slice_lookup_nat.
    case_decide as Hin'; [| lia].
    replace (L `min` length row + (x - L `min` length row))%nat with x by lia.
    now rewrite Hv.
  - rewrite list_lookup_fmap. now destruct (row !! x).
Qed.

Lemma canvas_eq (f : frame pixel) (l t r b : Q) :
  move_face_canvas pixel zero f (l, t, r, b) =
  fmap (M := list) (fmap (M := list) (fun img =>
    assign_image pixel (fmap (M := list) (fmap (M := list) (fun _ => zero)) img)
      (slice_image pixel img (py_int t) (py_int b) (py_int l) (py_int r))
      (py_int t) (py_int b) (py_int l) (py_int r))) f.
Proof.
  unfold move_face_canvas, assign_frame, zeros_like, slice_frame.
  rewrite zip_with_fmap_l, zip_with_fmap_r, zip_with_diag.
  apply list_fmap_ext. intros _ chans _.
  rewrite zip_with_fmap_l, zip_with_fmap_r, zip_with_diag. reflexivity.
Qed.

Lemma py_int_of_nonneg (q : Q) : (0 <= q)%Q -> py_int q = Z.of_nat (Z.to_nat (py_int q)).
Proof.
  intros Hq. rewrite Z2Nat.id; [reflexivity |].
  rewrite (py_int_nonneg q Hq). change 0 with (Qfloor 0).
  now apply Qfloor_resp_le.
Qed.

(** X17: the frame that [crop_move_face] resizes keeps the input's pixels
    inside the face rectangle (rows [int(top)] to [int(bottom)], columns
    [int(left)] to [int(right)], upper bounds excluded) and is zero
    everywhere else, for every rectangle with non-negative coordinates. *)
Theorem move_face_canvas_pixel (f : frame pixel) (left_ top right_ bottom : Q)
    (n c y x : nat) :
  (0 <= left_)%Q -> (0 <= top)%Q -> (0 <= right_)%Q -> (0 <= bottom)%Q ->
  pixel_at (move_face_canvas pixel zero f (left_, top, right_, bottom)) n c y x
  = (fun v =>
       if (py_int top <=? Z.of_nat y) && (Z.of_nat y <? py_int bottom) &&
          ((py_int left_ <=? Z.of_nat x) && (Z.of_nat x <? py_int right_))
       then v else zero)
    <$> pixel_at f n c y x.
Proof.
  intros Hl Ht Hr Hb. rewrite canvas_eq. unfold pixel_at.
  rewrite list_lookup_fmap.
  destruct (f !! n) as [chans |]; [| reflexivity]. cbn.
  rewrite list_lookup_fmap.
  destruct (chans !! c) as [img |]; [| reflexivity]. cbn.
  rewrite (py_int_of_nonneg left_ Hl), (py_int_of_nonneg top Ht),
    (py_int_of_nonneg right_ Hr), (py_int_of_nonneg bottom Hb).
  rewrite region_image_lookup.
  set (T := Z.to_nat (py_int top)). set (B := Z.to_nat (py_int bottom)).
  set (L := Z.to_nat (py_int left_)). set (R := Z.to_nat (py_int right_)).
  replace (Z.of_nat T <=? Z.of_nat y) with (T <=? y)%nat
    by (destruct (Nat.leb_spec T y), (Z.leb_spec (Z.of_nat T) (Z.of_nat y)); lia).
  replace (Z.of_nat y <? Z.of_nat B) with (y <? B)%nat
    by (destruct (Nat.ltb_spec y B), (Z.ltb_spec (Z.of_nat y) (Z.of_nat B)); lia).
  replace (Z.of_nat L <=? Z.of_nat x) with (L <=? x)%nat
    by (destruct (Nat.leb_spec L x), (Z.leb_spec (Z.of_nat L) (Z.of_nat x)); lia).
  replace (Z.of_nat x <? Z.of_nat R) with (x <? R)%nat
    by (destruct (Nat.ltb_spec x R), (Z.ltb_spec (Z.of_nat x) (Z.of_nat R)); lia).
  reflexivity.
Qed.
End RegionFacts.

Lemma move_face_canvas_pixel_witness :
  (0 <= 1)%Q /\ (0 <= 0)%Q /\ (0 <= 3)%Q /\ (0 <= 2)%Q /\
  move_face_canvas Z 0 three_by_three (1, 0, 3, 2)%Q
    = [[[[0; 2; 3]; [0; 5; 6]; [0; 0; 0]]]] /\
  pixel_at (move_face_canvas Z 0 three_by_three (1, 0, 3, 2)%Q) 0 0 1 2 = Some 6.
Proof.
  assert (H1 : (0 <= 1)%Q) by discriminate.
  assert (H2 : (0 <= 0)%Q) by discriminate.
  assert (H3 : (0 <= 3)%Q) by discriminate.
  assert (H4 : (0 <= 2)%Q) by discriminate.
  split; [exact H1 |]. split; [exact H2 |]. split; [exact H3 |].
  split; [exact H4 |]. split; [reflexivity |].
  exact (move_face_canvas_pixel 0 three_by_three 1 0 3 2 0 0 1 2 H1 H2 H3 H4).
Defined.

(** ** The patch mask, pixel by pixel *)

Lemma in_patch_iff (ps i j y x : nat) :
  in_patch ps i j y x = true <->
  (0 < ps)%nat /\ (y / ps)%nat = i /\ (x / ps)%nat = j.
Proof.
  unfold in_patch.
  rewrite !Bool.andb_true_iff, !Nat.leb_le, !Nat.ltb_lt.
  rewrite !Nat.mul_add_distr_r, !Nat.mul_1_l.
  split.
  - intros [[[Hy1 Hy2] Hx1] Hx2].
    assert (Hps : (0 < ps)%nat) by lia.
    split; [exact Hps |]. split; symmetry.
    + apply (Nat.div_unique y ps i (y - i * ps)); lia.
    + apply (Nat.div_unique x ps j (x - j * ps)); lia.
  - intros (Hps & <- & <-).
    assert (Hne : ps <> 0%nat) by lia.
    pose proof (Nat.div_mod_eq y ps) as Ey.
    pose proof (Nat.mod_upper_bound y ps Hne) as By.
    pose proof (Nat.div_mod_eq x ps) as Ex.
    pose proof (Nat.mod_upper_bound x ps Hne) as Bx.
    rewrite (Nat.mul_comm (y / ps) ps), (Nat.mul_comm (x / ps) ps). lia.
Qed.

Lemma existsb_patch (c : nat -> nat -> bool) (ps y x : nat) :
  existsb (fun i => existsb (fun j => c i j && in_patch ps i j y x) (seq 0 16))
    (seq 0 16)
  = (0 <? ps)%nat && (y / ps <? 16)%nat && (x / ps <? 16)%nat
    && c (y / ps)%nat (x / ps)%nat.
Proof.
  apply Bool.eq_iff_eq_true.
  rewrite existsb_exists, !Bool.andb_true_iff, !Nat.ltb_lt. split.
  - intros (i & Hi & Hex). apply existsb_exists in Hex as (j & Hj & Hcij).
    apply andb_prop in Hcij as [Hc Hin].
    apply in_patch_iff in Hin as (Hps & <- & <-).
    apply in_seq in Hi. apply in_seq in Hj.
    repeat split; [exact Hps | apply Hi | apply Hj | exact Hc].
  - intros [[[Hps Hy] Hx] Hc].
    exists (y / ps)%nat. split; [apply in_seq; split; [apply Nat.le_0_l | exact Hy] |].
    apply existsb_exists. exists (x / ps)%nat.
    split; [apply in_seq; split; [apply Nat.le_0_l | exact Hx] |].
    rewrite Hc. cbn [andb]. now apply in_patch_iff.
Qed.

Section MaskPixelFacts.
Context {pixel : Type}.
Variable zero : pixel.

Lemma image_shape_lookup (h w : nat) (img : image pixel) (y x : nat)
    (row : list pixel) :
  image_has_shape h w img = true ->
  img !! y = Some row -> (y < h)%nat /\ length row = w.
Proof.
  unfold image_has_shape. intros [Hh Hrows]%andb_prop Hrow.
  apply Nat.eqb_eq in Hh. split.
  - apply lookup_lt_Some in Hrow. now rewrite <- Hh.
  - rewrite forallb_forall in Hrows.
    apply Nat.eqb_eq, Hrows, list_elem_of_In, list_elem_of_lookup. eauto.
Qed.

Lemma patch_mask_test (th tw : nat) (rates : nat -> nat -> Q) (mask_rate : Q)
    (y x : nat) :
  (y < th)%nat -> (x < tw)%nat ->
  mask_at (patch_mask th tw rates mask_rate) y x =
  Some ((0 <? th / 16)%nat && (y / (th / 16) <? 16)%nat
        && (x / (th / 16) <? 16)%nat
        && Qltb (rates (y / (th / 16))%nat (x / (th / 16))%nat) mask_rate).
Proof.
  intros Hy Hx.
  rewrite (patch_mask_at th tw rates mask_rate y x Hy Hx). f_equal.
  apply (existsb_patch (fun i j => Qltb (rates i j) mask_rate)).
Qed.

Lemma apply_mask_pixel (f : frame pixel) (h w : nat) (mask : list (list bool))
    (test : nat -> nat -> bool) :
  forallb (forallb (image_has_shape h w)) f = true ->
  (forall y x, (y < h)%nat -> (x < w)%nat -> mask_at mask y x = Some (test y x)) ->
  exists out,
    apply_mask zero f h w mask = Ok out /\
    forall n c y x,
      pixel_at out n c y x =
      (fun v => if test y x then zero else v) <$> pixel_at f n c y x.
Proof.
  intros Hshape Hmask. unfold apply_mask. rewrite Hshape.
  eexists. split; [reflexivity |].
  intros n c y x. unfold pixel_at.
  rewrite list_lookup_fmap.
  destruct (f !! n) as [chans |] eqn:Hn; [| reflexivity].
  cbn [fmap option_fmap option_map mbind option_bind].
  rewrite list_lookup_fmap.
  destruct (chans !! c) as [img |] eqn:Hc; [| reflexivity].
  cbn [fmap option_fmap option_map mbind option_bind].
  assert (Himg : image_has_shape h w img = true).
  { rewrite forallb_forall in Hshape.
    assert (Hchans : forallb (image_has_shape h w) chans = true).
    { apply Hshape, list_elem_of_In, list_elem_of_lookup. eauto. }
    rewrite forallb_forall in Hchans.
    apply Hchans, list_elem_of_In, list_elem_of_lookup. eauto. }
  rewrite lookup_zip_with.
  destruct (img !! y) as [row |] eqn:Hrow; [| reflexivity].
  cbn [fmap option_fmap option_map mbind option_bind].
  destruct (image_shape_lookup _ _ _ y x row Himg Hrow) as [Hy Hw].
  destruct (row !! x) as [v |] eqn:Hv.
  - apply lookup_lt_Some in Hv as Hx. rewrite Hw in Hx.
    pose proof (Hmask y x Hy Hx) as Hat. unfold mask_at in Hat.
    destruct (mask !! y) as [mrow |]; [| discriminate].
    cbn [fmap option_fmap option_map mbind option_bind] in Hat |- *.
    rewrite lookup_zip_with, Hv, Hat. reflexivity.
  - destruct (mask !! y) as [mrow |]; [| reflexivity].
    cbn [fmap option_fmap option_map mbind option_bind].
    rewrite lookup_zip_with, Hv. reflexivity.
Qed.

(** X18: when the mask is applied ([mask_rate] non-zero and the gate draw
    below [use_mask_rate]), an output pixel is zeroed exactly when the
    draw of its own patch, of side [target_height // 16], is below
    [mask_rate]; every other pixel, and every pixel beyond the sixteenth
    patch, keeps the resized frame's value. *)
Theorem crop_move_face_mask_pixel
    (interpolate : frame pixel -> nat -> nat -> frame pixel)
    (f : frame pixel) (target_height target_width : nat)
    (crop_rect : option rect) (use_mask_rate mask_rate color_jit_rate : Q)
    (is_get_head : bool) (cur_mask_rate : Q) (mask_rect_rate : nat -> nat -> Q) :
  forallb (forallb (image_has_shape target_height target_width))
    (interpolate
       (move_face_canvas pixel zero f
          (crop_move_face_rect (frame_width f) (frame_height f) crop_rect
             is_get_head))
       target_height target_width) = true ->
  ~ (mask_rate == 0)%Q ->
  (cur_mask_rate < use_mask_rate)%Q ->
  exists out,
    crop_move_face zero interpolate f (target_height, target_width) crop_rect
      use_mask_rate mask_rate color_jit_rate is_get_head cur_mask_rate
      mask_rect_rate = Ok out /\
    forall n c y x,
      pixel_at out n c y x =
      (fun v =>
         if (0 <? target_height / 16)%nat
            && (y / (target_height / 16) <? 16)%nat
            && (x / (target_height / 16) <? 16)%nat
            && Qltb (mask_rect_rate (y / (target_height / 16))%nat
                       (x / (target_height / 16))%nat) mask_rate
         then zero else v)
      <$> pixel_at
            (interpolate
               (move_face_canvas pixel zero f
                  (crop_move_face_rect (frame_width f) (frame_height f)
                     crop_rect is_get_head))
               target_height target_width) n c y x.
Proof.
  intros Hshape Hrate Hcur.
  assert (Hgate : negb (Qeq_bool mask_rate 0) && Qltb cur_mask_rate use_mask_rate
                  = true).
  { apply Qltb_lt in Hcur. rewrite Hcur.
    destruct (Qeq_bool mask_rate 0) eqn:E; [| reflexivity].
    exfalso. apply Hrate. now apply Qeq_bool_iff. }
  unfold crop_move_face. rewrite Hgate.
  apply apply_mask_pixel; [exact Hshape |].
  intros y x Hy Hx. now apply patch_mask_test.
Qed.
End MaskPixelFacts.

Lemma crop_move_face_mask_pixel_witness :
  forallb (forallb (image_has_shape 32 32))
    (nearest
       (move_face_canvas Z 0 three_by_three
          (crop_move_face_rect (frame_width three_by_three)
             (frame_height three_by_three) (Some (0, 0, 2, 2)%Q) false))
       32%nat 32%nat) = true /\
  ~ ((1 # 2) == 0)%Q /\
  (0 < 1)%Q /\
  exists out,
    crop_move_face 0 nearest three_by_three (32, 32)%nat (Some (0, 0, 2, 2)%Q)
      1 (1 # 2) 0 false 0
      (fun i j => if (i =? j)%nat then 0%Q else 1%Q) = Ok out.
Proof.
  assert (H1 : forallb (forallb (image_has_shape 32 32))
                 (nearest
                    (move_face_canvas Z 0 three_by_three
                       (crop_move_face_rect (frame_width three_by_three)
                          (frame_height three_by_three) (Some (0, 0, 2, 2)%Q) false))
                    32%nat 32%nat) = true)
    by apply nearest_has_shape.
  assert (H2 : ~ ((1 # 2) == 0)%Q) by discriminate.
  assert (H3 : (0 < 1)%Q) by reflexivity.
  split; [exact H1 |]. split; [exact H2 |]. split; [exact H3 |].
  destruct (crop_move_face_mask_pixel 0 nearest three_by_three 32 32
              (Some (0, 0, 2, 2)%Q) 1 (1 # 2) 0 false 0
              (fun i j => if (i =? j)%nat then 0%Q else 1%Q) H1 H2 H3)
    as (out & Hout & _).
  exists out. exact Hout.
Defined.

(** ** The union of the detected faces *)

Lemma py_index_nat {A : Type} (l : list A) (j : nat) (x : A) :
  py_index l (Z.of_nat j) = Ok x <-> l !! j = Some x.
Proof.
  unfold py_index.
  destruct (Z.ltb_spec (Z.of_nat j) 0) as [Hneg | _]; [lia |].
  destruct (Z.ltb_spec (Z.of_nat j) 0) as [Hneg | _]; [lia |].
  rewrite Nat2Z.id. cbn [orb].
  destruct (Z.leb_spec (Z.of_nat (length l)) (Z.of_nat j)) as [Hge | Hlt].
  - rewrite (proj2 (lookup_ge_None l j)) by lia. split; discriminate.
  - destruct (l !! j); split; congruence.
Qed.

Section UnionFacts.
Local Open Scope Q_scope.

Lemma face_rects_of_sound (i : nat) (all_rects : list rect) (ids : list Z) :
  forall (j : nat) (acc l : list rect),
    face_rects_of i all_rects (Z.of_nat j) ids acc = Ok l ->
    exists found,
      l = acc ++ found /\
      forall fr, fr ∈ found ->
        exists k, ids !! k = Some (Z.of_nat i) /\ all_rects !! (j + k)%nat = Some fr.
Proof.
  induction ids as [| id ids IH]; intros j acc l; cbn [face_rects_of].
  - intros [= <-]. exists []. rewrite app_nil_r. split; [reflexivity |].
    intros fr Hfr. inversion Hfr.
  - replace (Z.of_nat j + 1)%Z with (Z.of_nat (Datatypes.S j)) by lia.
    destruct (Z.eqb_spec (Z.of_nat i) id) as [<- | Hne].
    + destruct (py_index all_rects (Z.of_nat j)) as [r |] eqn:Hr; [| discriminate].
      apply py_index_nat in Hr. cbn. intros Hl.
      destruct (IH _ _ _ Hl) as (found & -> & Hfound).
      exists (r :: found). rewrite <- app_assoc. split; [reflexivity |].
      intros fr [-> | Hfr]%elem_of_cons.
      * exists 0%nat. now rewrite Nat.add_0_r.
      * destruct (Hfound fr Hfr) as (k & Hk & Hrk).
        exists (Datatypes.S k). split; [exact Hk |].
        now replace (j + Datatypes.S k)%nat with (Datatypes.S j + k)%nat by lia.
    + intros Hl. destruct (IH _ _ _ Hl) as (found & -> & Hfound).
      exists found. split; [reflexivity |].
      intros fr Hfr. destruct (Hfound fr Hfr) as (k & Hk & Hrk).
      exists (Datatypes.S k). split; [exact Hk |].
      now replace (j + Datatypes.S k)%nat with (Datatypes.S j + k)%nat by lia.
Qed.

Lemma face_rects_of_total (i : nat) (all_rects : list rect) (ids : list Z) :
  forall (j : nat) (acc : list rect),
    (j + length ids <= length all_rects)%nat ->
    exists found,
      face_rects_of i all_rects (Z.of_nat j) ids acc = Ok (acc ++ found) /\
      (Z.of_nat i ∈ ids -> found <> []).
Proof.
  induction ids as [| id ids IH]; intros j acc Hlen; cbn [face_rects_of].
  - exists []. rewrite app_nil_r. split; [reflexivity |].
    intros Hin. inversion Hin.
  - cbn [length] in Hlen.
    replace (Z.of_nat j + 1)%Z with (Z.of_nat (Datatypes.S j)) by lia.
    destruct (Z.eqb_spec (Z.of_nat i) id) as [<- | Hne].
    + destruct (lookup_lt_is_Some_2 all_rects j ltac:(lia)) as [r Hr].
      rewrite (proj2 (py_index_nat all_rects j r) Hr). cbn.
      destruct (IH (Datatypes.S j) (acc ++ [r]) ltac:(lia)) as (found & Hrun & _).
      exists (r :: found). rewrite Hrun, <- app_assoc. split; [reflexivity |].
      discriminate.
    + destruct (IH (Datatypes.S j) acc ltac:(lia)) as (found & Hrun & Hne').
      exists found. split; [exact Hrun |].
      intros [Heq | Hin]%elem_of_cons; [congruence | now apply Hne'].
Qed.

(** X19: the rectangle that [crop025_face] accumulates over the frames
    extends the rectangle it started from and contains, for every frame,
    the rectangle of a detection of that frame. *)
Theorem union_faces_box (ids : list Z) (all_rects : list rect)
    (frames : list nat) (acc box : rect) :
  union_faces ids all_rects frames acc = Ok box ->
  let '(l0, t0, r0, b0) := acc in
  let '(l, t, r, b) := box in
  (l <= l0 /\ t <= t0 /\ r0 <= r /\ b0 <= b) /\
  forall i, i ∈ frames ->
    exists k left_ top right_ bottom,
      ids !! k = Some (Z.of_nat i) /\
      all_rects !! k = Some (left_, top, right_, bottom) /\
      l <= left_ /\ t <= top /\ right_ <= r /\ bottom <= b.
Proof.
  revert acc. induction frames as [| i frames IH]; intros acc; cbn [union_faces].
  - intros [= <-]. destruct acc as [[[l0 t0] r0] b0].
    split; [repeat split; apply Qle_refl |].
    intros i Hi. inversion Hi.
  - destruct (face_rects_of i all_rects 0 ids []) as [face_rects |] eqn:Hf;
      [| discriminate].
    cbn.
    destruct (face_rects_of_sound i all_rects ids 0 [] face_rects Hf)
      as (found & -> & Hfound).
    cbn [app].
    destruct found as [| [[[fl ft] fr] fb] found]; [discriminate |].
    change (py_index ((fl, ft, fr, fb) :: found) 0%Z) with (Ok (A := rect) (fl, ft, fr, fb)).
    cbn. destruct acc as [[[l0 t0] r0] b0]. intros Hrun.
    specialize (IH _ Hrun). cbn in IH.
    destruct box as [[[l t] r] b]. destruct IH as [(Hl & Ht & Hr & Hb) Hall].
    pose proof (Q.le_min_l fl l0). pose proof (Q.le_min_r fl l0).
    pose proof (Q.le_min_l ft t0). pose proof (Q.le_min_r ft t0).
    pose proof (Q.le_max_l r0 fr). pose proof (Q.le_max_r r0 fr).
    pose proof (Q.le_max_l b0 fb). pose proof (Q.le_max_r b0 fb).
    split; [repeat split; Lqa.lra |].
    intros i' [-> | Hi']%elem_of_cons; [| now apply Hall].
    destruct (Hfound (fl, ft, fr, fb)) as (k & Hk & Hrk); [left |].
    exists k, fl, ft, fr, fb. repeat split; try assumption; Lqa.lra.
Qed.

Lemma union_faces_total (ids : list Z) (all_rects : list rect)
    (frames : list nat) :
  (length ids <= length all_rects)%nat ->
  (forall i, i ∈ frames -> Z.of_nat i ∈ ids) ->
  forall acc, exists box, union_faces ids all_rects frames acc = Ok box.
Proof.
  intros Hlen. induction frames as [| i frames IH]; intros Hall acc;
    cbn [union_faces].
  - eauto.
  - destruct (face_rects_of_total i all_rects ids 0 [] ltac:(cbn; lia))
      as (found & Hf & Hne).
    change (Z.of_nat 0) with 0%Z in Hf. rewrite Hf. cbn.
    destruct found as [| [[[fl ft] fr] fb] found].
    { exfalso. apply Hne; [| reflexivity]. apply Hall. left. }
    change (py_index ((fl, ft, fr, fb) :: found) 0%Z) with (Ok (A := rect) (fl, ft, fr, fb)).
    cbn. destruct acc as [[[l0 t0] r0] b0].
    apply IH. intros i' Hi'. apply Hall. now right.
Qed.
End UnionFacts.

Lemma union_faces_box_witness :
  union_faces [0; 1]%Z [(10, 20, 30, 40); (5, 25, 20, 50)]%Q [0; 1]%nat
    (64, 64, 0, 0)%Q = Ok (5, 20, 30, 50)%Q /\
  ((5 <= 64 /\ 20 <= 64 /\ 0 <= 30 /\ 0 <= 50)%Q).
Proof.
  assert (H1 : union_faces [0; 1]%Z [(10, 20, 30, 40); (5, 25, 20, 50)]%Q
                 [0; 1]%nat (64, 64, 0, 0)%Q = Ok (5, 20, 30, 50)%Q)
    by reflexivity.
  split; [exact H1 |].
  exact (proj1 (union_faces_box _ _ _ _ _ H1)).
Defined.

Section Crop025Facts.
Context {pixel : Type}.
Variable interpolate : frame pixel -> nat -> nat -> frame pixel.

(** X20: [crop025_face] raises no index error whenever the detector
    reports, for every frame of the batch, at least one detection, with a
    rectangle for every reported id: it returns what
    [crop_and_resize_tensor] gives for the batch, at the rectangle
    computed from the faces or at the centre. *)
Theorem crop025_face_returns (pixel_values : frame pixel)
    (target_size : nat * nat) (crop_face_center : bool)
    (detector : frame pixel -> detection) (ids : list Z) :
  image_ids (detector pixel_values) = Some ids ->
  (length ids <= length (rects (detector pixel_values)))%nat ->
  (forall i, (i < length pixel_values)%nat -> Z.of_nat i ∈ ids) ->
  exists crop_rect,
    crop025_face interpolate pixel_values target_size crop_face_center
      (Some detector)
    = Ok (crop_and_resize_tensor interpolate pixel_values target_size
            crop_rect None false).
Proof.
  intros Hids Hlen Hall. unfold crop025_face. cbn [mbind result_bind rbind].
  rewrite Hids.
  destruct ((length ids =? 0)%nat || negb crop_face_center);
    [exists None; reflexivity |].
  destruct (union_faces_total ids (rects (detector pixel_values))
              (seq 0 (length pixel_values)) Hlen) with
    (acc := (dim (frame_width pixel_values), dim (frame_height pixel_values),
             0%Q, 0%Q)) as [[[[l t] r] b] Hbox].
  - intros i Hi. apply Hall. apply elem_of_seq in Hi. lia.
  - rewrite Hbox. cbn [mbind result_bind rbind].
    destruct (get_rect_length l t r b (dim (frame_width pixel_values))
                (dim (frame_height pixel_values))) as [[rect_length cx] cy].
    eexists (Some _). reflexivity.
Qed.

(** X21: [crop025_face] fails its assertion without a detector, and falls
    back to the plain centre crop when the detector reports no detection
    or when [crop_face_center] is off. *)
Theorem crop025_face_fallback (pixel_values : frame pixel)
    (target_size : nat * nat) (crop_face_center : bool) :
  crop025_face interpolate pixel_values target_size crop_face_center None
    = Raise AssertionError /\
  forall detector : frame pixel -> detection,
    no_faces (detector pixel_values) = true \/ crop_face_center = false ->
    crop025_face interpolate pixel_values target_size crop_face_center
      (Some detector)
    = Ok (crop_and_resize_tensor interpolate pixel_values target_size
            None None false).
Proof.
  split; [reflexivity |].
  intros detector Hno. unfold crop025_face, no_faces in *. cbn.
  destruct (image_ids (detector pixel_values)) as [ids |]; [| reflexivity].
  destruct Hno as [-> | ->]; [reflexivity |].
  now rewrite Bool.orb_true_r.
Qed.
End Crop025Facts.

Lemma crop025_face_returns_witness :
  let detector := fun _ : frame Z =>
    {| image_ids := Some [0; 1]%Z;
       rects := [(0, 0, 1, 1); (1, 1, 2, 2)]%Q |} in
  image_ids (detector two_frames) = Some [0; 1]%Z /\
  (length [0; 1]%Z <= length (rects (detector two_frames)))%nat /\
  (forall i, (i < length two_frames)%nat -> Z.of_nat i ∈ [0; 1]%Z) /\
  exists crop_rect,
    crop025_face nearest two_frames (4, 4)%nat true (Some detector)
    = Ok (crop_and_resize_tensor nearest two_frames (4, 4)%nat crop_rect None
            false).
Proof.
  intros detector.
  assert (H1 : image_ids (detector two_frames) = Some [0; 1]%Z) by reflexivity.
  assert (H2 : (length [0; 1]%Z <= length (rects (detector two_frames)))%nat)
    by (cbn; lia).
  assert (H3 : forall i, (i < length two_frames)%nat -> Z.of_nat i ∈ [0; 1]%Z).
  { intros i Hi. cbn in Hi.
    destruct i as [| [| i]]; [left | right; left | lia]. }
  split; [exact H1 |]. split; [exact H2 |]. split; [exact H3 |].
  exact (crop025_face_returns nearest two_frames (4, 4)%nat true detector
           [0; 1]%Z H1 H2 H3).
Defined.

Lemma crop025_face_fallback_witness :
  let detector := fun _ : frame Z => {| image_ids := None; rects := [] |} in
  (no_faces (detector two_frames) = true \/ true = false) /\
  crop025_face nearest two_frames (4, 4)%nat true (Some detector)
  = Ok (crop_and_resize_tensor nearest two_frames (4, 4)%nat None None false).
Proof.
  intros detector.
  assert (H1 : no_faces (detector two_frames) = true \/ true = false)
    by (left; reflexivity).
  split; [exact H1 |].
  exact (proj2 (crop025_face_fallback nearest two_frames (4, 4)%nat true)
           detector H1).
Defined.

(** ** One face per frame *)

Lemma first_face_of_spec (i : nat) (all_rects : list rect) (ids : list Z) :
  forall j : nat,
    (j + length ids <= length all_rects)%nat ->
    exists found,
      first_face_of i all_rects (Z.of_nat j) ids = Ok found /\
      match found with
      | None => Z.of_nat i ∉ ids
      | Some r =>
          exists k, ids !! k = Some (Z.of_nat i) /\
                    all_rects !! (j + k)%nat = Some r /\
                    forall k', (k' < k)%nat -> ids !! k' <> Some (Z.of_nat i)
      end.
Proof.
  induction ids as [| id ids IH]; intros j Hlen; cbn [first_face_of].
  - exists None. split; [reflexivity |]. intros Hin. inversion Hin.
  - cbn [length] in Hlen.
    replace (Z.of_nat j + 1) with (Z.of_nat (S j)) by lia.
    destruct (Z.eqb_spec (Z.of_nat i) id) as [<- | Hne].
    + destruct (lookup_lt_is_Some_2 all_rects j ltac:(lia)) as [r Hr].
      rewrite (proj2 (py_index_nat all_rects j r) Hr). cbn.
      exists (Some r). split; [reflexivity |].
      exists 0%nat. rewrite Nat.add_0_r. repeat split; [exact Hr |].
      intros k' Hk'. lia.
    + destruct (IH (S j) ltac:(lia)) as (found & Hrun & Hspec).
      exists found. split; [exact Hrun |].
      destruct found as [r |].
      * destruct Hspec as (k & Hk & Hrk & Hfirst).
        exists (S k). split; [exact Hk |].
        split; [now replace (j + S k)%nat with (S j + k)%nat by lia |].
        intros [| k'] Hk'; cbn; [congruence | apply Hfirst; lia].
      * intros [Heq | Hin]%elem_of_cons; [congruence | contradiction].
Qed.

Lemma face_rect_loop_spec (ids : list Z) (all_rects : list rect) :
  (length ids <= length all_rects)%nat ->
  forall (m k : nat) (acc : list (option rect)),
    length acc = k ->
    exists more,
      face_rect_loop ids all_rects (seq k m) acc = Ok (acc ++ more) /\
      length more = m /\
      forall d, (d < m)%nat ->
        exists found,
          more !! d = Some found /\
          first_face_of (k + d) all_rects 0 ids = Ok found.
Proof.
  intros Hlen. induction m as [| m IH]; intros k acc Hacc; cbn [seq face_rect_loop].
  - exists []. rewrite app_nil_r. split; [reflexivity |]. split; [reflexivity |].
    intros d Hd. lia.
  - destruct (first_face_of_spec k all_rects ids 0 ltac:(cbn; lia))
      as (found & Hrun & _).
    change (Z.of_nat 0) with 0 in Hrun. rewrite Hrun. cbn.
    assert (Hnext :
      (if (length (match found with
                   | Some r => acc ++ [Some r]
                   | None => acc
                   end) =? k)%nat
       then (match found with
             | Some r => acc ++ [Some r]
             | None => acc
             end) ++ [None]
       else match found with
            | Some r => acc ++ [Some r]
            | None => acc
            end) = acc ++ [found]).
    { destruct found as [r |].
      - rewrite length_app. cbn [length].
        destruct (Nat.eqb_spec (length acc + 1) k); [lia | reflexivity].
      - rewrite Hacc, Nat.eqb_refl. reflexivity. }
    rewrite Hnext.
    destruct (IH (S k) (acc ++ [found])) as (more & Hloop & Hmore & Hall).
    { rewrite length_app. cbn. lia. }
    exists (found :: more). rewrite Hloop, <- app_assoc.
    split; [reflexivity |]. split; [cbn; now rewrite Hmore |].
    intros [| d] Hd.
    + exists found. rewrite Nat.add_0_r. split; [reflexivity | exact Hrun].
    + destruct (Hall d ltac:(lia)) as (o & Ho & Hfirst).
      exists o. split; [exact Ho |].
      now replace (k + S d)%nat with (S k + d)%nat by lia.
Qed.

(** X22: the list of face rectangles that [get_condition_face] and
    [get_025_gaze_mouth] build has exactly one entry per frame: [None]
    for a frame without a detection, and otherwise the rectangle of the
    first detection of that frame.  A frame without a detection is no
    error here (given a rectangle for every reported id). *)
Theorem frame_face_rects_spec (faces : detection) (n : nat) :
  let ids := default [] (image_ids faces) in
  (length ids <= length (rects faces))%nat ->
  exists face_rect,
    frame_face_rects faces n = Ok face_rect /\
    length face_rect = n /\
    forall i, (i < n)%nat ->
      exists found,
        face_rect !! i = Some found /\
        match found with
        | None => Z.of_nat i ∉ ids
        | Some r =>
            exists k, ids !! k = Some (Z.of_nat i) /\
                      rects faces !! k = Some r /\
                      forall k', (k' < k)%nat -> ids !! k' <> Some (Z.of_nat i)
        end.
Proof.
  intros ids Hlen. unfold frame_face_rects.
  assert (Hnone : exists face_rect,
            Ok (replicate n (@None rect)) = Ok face_rect /\
            length face_rect = n /\
            forall i, (i < n)%nat ->
              exists found, face_rect !! i = Some found /\
                match found with
                | None => Z.of_nat i ∉ @nil Z
                | Some r =>
                    exists k, @nil Z !! k = Some (Z.of_nat i) /\
                              rects faces !! k = Some r /\
                              forall k', (k' < k)%nat ->
                                @nil Z !! k' <> Some (Z.of_nat i)
                end).
  { exists (replicate n None). split; [reflexivity |].
    split; [apply length_replicate |].
    intros i Hi. exists None. split; [now apply lookup_replicate_2 |].
    intros Hin. inversion Hin. }
  subst ids. destruct (image_ids faces) as [ids |]; cbn [default] in *;
    [| exact Hnone].
  destruct ids as [| id ids]; [exact Hnone |]. cbn [length Nat.eqb].
  destruct (face_rect_loop_spec (id :: ids) (rects faces) Hlen n 0 [] eq_refl)
    as (more & Hloop & Hmore & Hall).
  exists more. split; [exact Hloop |]. split; [exact Hmore |].
  intros i Hi. destruct (Hall i Hi) as (found & Hfound & Hfirst).
  exists found. split; [exact Hfound |].
  destruct (first_face_of_spec i (rects faces) (id :: ids) 0 ltac:(cbn; cbn in Hlen; lia))
    as (found' & Hrun & Hspec).
  change (Z.of_nat 0) with 0 in Hrun. cbn [Nat.add] in Hfirst.
  rewrite Hfirst in Hrun. injection Hrun as <-. exact Hspec.
Qed.

Lemma frame_face_rects_spec_witness :
  let faces := {| image_ids := Some [1; 1]; rects := [(0, 0, 1, 1); (1, 1, 2, 2)]%Q |} in
  (length (default [] (image_ids faces)) <= length (rects faces))%nat /\
  frame_face_rects faces 3 = Ok [None; Some (0, 0, 1, 1)%Q; None] /\
  exists face_rect,
    frame_face_rects faces 3 = Ok face_rect /\ length face_rect = 3%nat.
Proof.
  intros faces.
  assert (H1 : (length (default [] (image_ids faces)) <= length (rects faces))%nat)
    by (cbn; lia).
  split; [exact H1 |]. split; [reflexivity |].
  destruct (frame_face_rects_spec faces 3 H1) as (face_rect & Hrun & Hlen & _).
  exists face_rect. split; [exact Hrun | exact Hlen].
Defined.

Section ConditionFacts.
Context {pixel : Type}.
Variable zero : pixel.
Variable interpolate : frame pixel -> nat -> nat -> frame pixel.

Lemma crop_move_face_unmasked (f : frame pixel) (th tw : nat)
    (crop_rect : option rect) (use_mask_rate color_jit_rate : Q)
    (is_get_head : bool) (cur : Q) (rates : nat -> nat -> Q) :
  crop_move_face zero interpolate f (th, tw) crop_rect use_mask_rate 0
    color_jit_rate is_get_head cur rates
  = Ok (interpolate
          (move_face_canvas pixel zero f
             (crop_move_face_rect (frame_width f) (frame_height f) crop_rect
                is_get_head)) th tw).
Proof. reflexivity. Qed.

Lemma face_image_list_none (control : frame pixel) (th tw : nat)
    (is_get_head : bool) (draws : nat -> Q * (nat -> nat -> Q)) :
  forall (m i : nat),
    (i + m <= length control)%nat ->
    face_image_list zero interpolate control (replicate m None) (th, tw)
      is_get_head draws i
    = Ok (concat ((fun item =>
                     interpolate
                       (move_face_canvas pixel zero [item] (0, 0, 2, 2)%Q) th tw)
                  <$> take m (drop i control))).
Proof.
  induction m as [| m IH]; intros i Hlen; cbn [replicate face_image_list].
  - reflexivity.
  - destruct (lookup_lt_is_Some_2 control i ltac:(lia)) as [item Hitem].
    rewrite (proj2 (py_index_nat control i item) Hitem).
    cbn [mbind result_bind rbind].
    rewrite crop_move_face_unmasked. cbn [mbind result_bind rbind].
    rewrite IH by lia. cbn [mbind result_bind rbind].
    change (crop_move_face_rect _ _ None is_get_head) with (0, 0, 2, 2)%Q.
    rewrite (drop_S control item i Hitem). reflexivity.
Qed.

(** X23: when the detector reports no detection, [get_condition_face] and
    [get_025_gaze_mouth] do not fail on a non-empty batch: every frame is
    replaced by the resized frame that keeps only its top-left 2 x 2
    corner.  On an empty batch the concatenation of the empty list of
    frames raises. *)
Theorem condition_faces_no_detection (control : frame pixel)
    (face_detector : frame pixel -> detection) (th tw : nat)
    (is_get_head : bool) (draws : nat -> Q * (nat -> nat -> Q)) :
  no_faces (face_detector control) = true ->
  condition_faces zero interpolate control face_detector (th, tw) is_get_head
    draws
  = match control with
    | [] => Raise RuntimeError
    | _ :: _ =>
        Ok (concat ((fun item =>
                       interpolate
                         (move_face_canvas pixel zero [item] (0, 0, 2, 2)%Q) th tw)
                    <$> control))
    end.
Proof.
  intros Hno. unfold condition_faces, frame_face_rects, no_faces in *.
  assert (Hrects :
    match image_ids (face_detector control) with
    | Some ids =>
        if (length ids =? 0)%nat then Ok (replicate (length control) None)
        else face_rect_loop ids (rects (face_detector control))
               (seq 0 (length control)) []
    | None => Ok (replicate (length control) None)
    end = Ok (replicate (length control) (@None rect))).
  { destruct (image_ids (face_detector control)); [| reflexivity].
    now rewrite Hno. }
  rewrite Hrects. cbn [mbind result_bind rbind].
  rewrite face_image_list_none by lia.
  cbn [mbind result_bind rbind].
  rewrite length_replicate, drop_0, firstn_all.
  now destruct control.
Qed.
End ConditionFacts.

Lemma condition_faces_no_detection_witness :
  let detector := fun _ : frame Z => {| image_ids := None; rects := [] |} in
  no_faces (detector two_frames) = true /\
  condition_faces 0 nearest two_frames detector (2, 2)%nat false
    (fun _ => (0%Q, fun _ _ => 0%Q))
  = Ok (concat ((fun item => nearest (move_face_canvas Z 0 [item] (0, 0, 2, 2)%Q)
                               2%nat 2%nat) <$> two_frames)).
Proof.
  intros detector.
  assert (H1 : no_faces (detector two_frames) = true) by reflexivity.
  split; [exact H1 |].
  exact (condition_faces_no_detection 0 nearest two_frames detector 2 2 false
           (fun _ => (0%Q, fun _ _ => 0%Q)) H1).
Defined.

(** ** Cropping around the face of the first frame *)

Lemma first_face_of_found (i : nat) (all_rects : list rect) (ids : list Z) :
  forall (j k : nat) (r : rect),
    ids !! k = Some (Z.of_nat i) ->
    (forall k', (k' < k)%nat -> ids !! k' <> Some (Z.of_nat i)) ->
    all_rects !! (j + k)%nat = Some r ->
    first_face_of i all_rects (Z.of_nat j) ids = Ok (Some r).
Proof.
  induction ids as [| id ids IH]; intros j k r Hk Hfirst Hr; [discriminate |].
  cbn [first_face_of].
  replace (Z.of_nat j + 1) with (Z.of_nat (S j)) by lia.
  destruct k as [| k].
  - injection Hk as ->. rewrite Z.eqb_refl. rewrite Nat.add_0_r in Hr.
    now rewrite (proj2 (py_index_nat all_rects j r) Hr).
  - destruct (Z.eqb_spec (Z.of_nat i) id) as [<- | Hne].
    + exfalso. apply (Hfirst 0%nat); [lia | reflexivity].
    + apply (IH (S j) k r).
      * exact Hk.
      * intros k' Hk'. apply (Hfirst (S k')). lia.
      * now replace (S j + k)%nat with (j + S k)%nat by lia.
Qed.

Lemma first_face_of_absent (i : nat) (all_rects : list rect) (ids : list Z) :
  Z.of_nat i ∉ ids ->
  forall j, first_face_of i all_rects j ids = Ok None.
Proof.
  induction ids as [| id ids IH]; intros Habs j; cbn [first_face_of];
    [reflexivity |].
  apply not_elem_of_cons in Habs as [Hne Habs].
  destruct (Z.eqb_spec (Z.of_nat i) id); [contradiction | now apply IH].
Qed.

Lemma endpoint_face_rects (ids : list Z) (all_rects : list rect)
    (found0 found1 : option rect) :
  first_face_of 0 all_rects 0 ids = Ok found0 ->
  first_face_of 1 all_rects 0 ids = Ok found1 ->
  face_rect_loop ids all_rects [0; 1]%nat [] = Ok [found0; found1].
Proof.
  intros H0 H1. cbn [face_rect_loop]. rewrite H0. cbn [mbind result_bind rbind].
  destruct found0 as [r0 |]; cbn [app length Nat.eqb]; rewrite H1;
    cbn [mbind result_bind rbind];
    destruct found1 as [r1 |]; reflexivity.
Qed.

Lemma py_index_last {A : Type} (l : list A) (x : A) :
  py_index (l ++ [x]) (-1) = Ok x.
Proof.
  unfold py_index. rewrite length_app. cbn [length].
  change (-1 <? 0) with true. cbn match.
  destruct (Z.ltb_spec (-1 + Z.of_nat (length l + 1)) 0) as [Hneg | _]; [lia |].
  destruct (Z.leb_spec (Z.of_nat (length l + 1)) (-1 + Z.of_nat (length l + 1)))
    as [Hge | _]; [lia |].
  cbn [orb].
  replace (Z.to_nat (-1 + Z.of_nat (length l + 1))) with (length l) by lia.
  now rewrite list_lookup_middle.
Qed.

Section TensorFaceFacts.
Context {pixel : Type}.
Variable interpolate : frame pixel -> nat -> nat -> frame pixel.

Lemma select_endpoints (pixel_values : frame pixel) :
  pixel_values <> [] ->
  exists selected,
    mapM (py_index pixel_values)
      (if (1 <? length pixel_values)%nat then [0; -1] else [0]) = Ok selected.
Proof.
  intros Hne.
  destruct (py_index_in_range pixel_values 0) as [first [Hfirst _]].
  { destruct pixel_values; [contradiction | cbn; lia]. }
  destruct (py_index_in_range pixel_values (-1)) as [last_ [Hlast _]].
  { destruct pixel_values; [contradiction | cbn; lia]. }
  destruct (1 <? length pixel_values)%nat; cbn [mapM]; rewrite Hfirst;
    cbn [mbind result_bind rbind]; rewrite ?Hlast; eexists; reflexivity.
Qed.

(** X24: [crop_and_resize_tensor_face] fails its assertion without a
    detector and raises an index error on an empty batch; on a non-empty
    batch it falls back to the plain centre crop when
    [crop_face_center] is off or the detector reports no detection. *)
Theorem crop_and_resize_tensor_face_fallback (pixel_values : frame pixel)
    (target_size : nat * nat) (crop_face_center : bool)
    (detector : frame pixel -> detection) :
  crop_and_resize_tensor_face interpolate pixel_values target_size
    crop_face_center None = Raise AssertionError /\
  crop_and_resize_tensor_face interpolate [] target_size crop_face_center
    (Some detector) = Raise IndexError /\
  (pixel_values <> [] ->
   crop_face_center = false \/ (forall selected, no_faces (detector selected) = true) ->
   crop_and_resize_tensor_face interpolate pixel_values target_size
     crop_face_center (Some detector)
   = Ok (crop_and_resize_tensor interpolate pixel_values target_size
           None None false)).
Proof.
  split; [reflexivity |]. split; [reflexivity |].
  intros Hne Hno. unfold crop_and_resize_tensor_face.
  cbn [mbind result_bind rbind].
  destruct (select_endpoints pixel_values Hne) as [selected ->].
  cbn [mbind result_bind rbind].
  destruct Hno as [-> | Hno].
  - now rewrite Bool.orb_true_r.
  - now rewrite Hno.
Qed.

(** X25: on a single frame in which the detector finds a face,
    [crop_and_resize_tensor_face] returns the square crop centred on the
    middle of the first detected rectangle. *)
Theorem crop_and_resize_tensor_face_single (item : list (image pixel))
    (target_size : nat * nat) (detector : frame pixel -> detection)
    (ids : list Z) (k : nat) (left_ top right_ bottom : Q) :
  image_ids (detector [item]) = Some ids ->
  ids !! k = Some 0 ->
  (forall k', (k' < k)%nat -> ids !! k' <> Some 0) ->
  rects (detector [item]) !! k = Some (left_, top, right_, bottom) ->
  1 ∉ ids ->
  crop_and_resize_tensor_face interpolate [item] target_size true (Some detector)
  = Ok (crop_and_resize_tensor interpolate [item] target_size None
          (Some (floordiv2 (left_ + right_), floordiv2 (top + bottom))) false).
Proof.
  intros Hids Hk Hfirst Hrect Habs. unfold crop_and_resize_tensor_face.
  cbn [mbind result_bind rbind length Nat.ltb Nat.leb mapM].
  change (py_index [item] 0) with (Ok item).
  cbn [mbind mret result_bind result_ret rbind].
  unfold no_faces. rewrite Hids.
  assert (Hlen : (length ids =? 0)%nat = false).
  { destruct ids; [discriminate | reflexivity]. }
  rewrite Hlen. cbn [orb negb].
  change (default [] (Some ids)) with ids.
  rewrite (endpoint_face_rects ids (rects (detector [item]))
             (Some (left_, top, right_, bottom)) None).
  - reflexivity.
  - exact (first_face_of_found 0 _ ids 0 k _ Hk Hfirst Hrect).
  - exact (first_face_of_absent 1 _ ids Habs 0).
Qed.

(** X26: on a batch of several frames with a face detected in the first
    and in the last one, [crop_and_resize_tensor_face] crops around the
    first face and runs the detector again on the cropped last frame: it
    returns the crop if a face is found there, and otherwise raises (it
    rearranges the four-dimensional batch with a five-axis pattern)
    instead of falling back to the centre crop. *)
Theorem crop_and_resize_tensor_face_recheck (first last_ : list (image pixel))
    (middle : frame pixel) (target_size : nat * nat)
    (detector : frame pixel -> detection) (ids : list Z) (k0 k1 : nat)
    (left_ top right_ bottom : Q) (other : rect) :
  let pixel_values := first :: middle ++ [last_] in
  let cropped :=
    crop_and_resize_tensor interpolate pixel_values target_size None
      (Some (floordiv2 (left_ + right_), floordiv2 (top + bottom))) false in
  image_ids (detector [first; last_]) = Some ids ->
  ids !! k0 = Some 0 ->
  (forall k', (k' < k0)%nat -> ids !! k' <> Some 0) ->
  rects (detector [first; last_]) !! k0 = Some (left_, top, right_, bottom) ->
  ids !! k1 = Some 1 ->
  (forall k', (k' < k1)%nat -> ids !! k' <> Some 1) ->
  rects (detector [first; last_]) !! k1 = Some other ->
  crop_and_resize_tensor_face interpolate pixel_values target_size true
    (Some detector)
  = if no_faces (detector (py_slice cropped (-1) (Z.of_nat (length cropped))))
    then Raise RuntimeError
    else Ok cropped.
Proof.
  intros pixel_values cropped Hids Hk0 Hfirst0 Hrect0 Hk1 Hfirst1 Hrect1.
  unfold crop_and_resize_tensor_face.
  cbn [mbind result_bind rbind].
  assert (Hlen : (1 <? length pixel_values)%nat = true).
  { unfold pixel_values. cbn [length]. rewrite length_app. cbn [length].
    apply Nat.ltb_lt. lia. }
  rewrite Hlen. cbn [mapM].
  change (py_index pixel_values 0) with (Ok first).
  assert (Hlast : py_index pixel_values (-1) = Ok last_)
    by exact (py_index_last (first :: middle) last_).
  rewrite Hlast. cbn [mbind mret result_bind result_ret rbind].
  unfold no_faces at 1. rewrite Hids.
  assert (Hne : (length ids =? 0)%nat = false).
  { destruct ids; [discriminate | reflexivity]. }
  rewrite Hne. cbn [orb negb].
  change (default [] (Some ids)) with ids.
  rewrite (endpoint_face_rects ids (rects (detector [first; last_]))
             (Some (left_, top, right_, bottom)) (Some other)).
  - reflexivity.
  - exact (first_face_of_found 0 _ ids 0 k0 _ Hk0 Hfirst0 Hrect0).
  - exact (first_face_of_found 1 _ ids 0 k1 _ Hk1 Hfirst1 Hrect1).
Qed.
End TensorFaceFacts.

Lemma crop_and_resize_tensor_face_fallback_witness :
  let detector := fun _ : frame Z => {| image_ids := None; rects := [] |} in
  two_frames <> [] /\
  (true = false \/ (forall selected, no_faces (detector selected) = true)) /\
  crop_and_resize_tensor_face nearest two_frames (4, 4)%nat true (Some detector)
  = Ok (crop_and_resize_tensor nearest two_frames (4, 4)%nat None None false).
Proof.
  intros detector.
  assert (H1 : two_frames <> []) by discriminate.
  assert (H2 : true = false \/ (forall selected, no_faces (detector selected) = true))
    by (right; reflexivity).
  split; [exact H1 |]. split; [exact H2 |].
  exact (proj2 (proj2 (crop_and_resize_tensor_face_fallback nearest two_frames
                         (4, 4)%nat true detector)) H1 H2).
Defined.

Lemma crop_and_resize_tensor_face_single_witness :
  let item := [[[1; 2; 3]; [4; 5; 6]; [7; 8; 9]]] in
  let detector := fun _ : frame Z =>
    {| image_ids := Some [0]; rects := [(0, 0, 2, 2)%Q] |} in
  image_ids (detector [item]) = Some [0] /\
  [0] !! 0%nat = Some 0 /\
  (forall k', (k' < 0)%nat -> [0] !! k' <> Some 0) /\
  rects (detector [item]) !! 0%nat = Some (0, 0, 2, 2)%Q /\
  (1 ∉ [0]) /\
  crop_and_resize_tensor_face nearest [item] (2, 2)%nat true (Some detector)
  = Ok (crop_and_resize_tensor nearest [item] (2, 2)%nat None
          (Some (floordiv2 (0 + 2), floordiv2 (0 + 2))%Q) false).
Proof.
  intros item detector.
  assert (H1 : image_ids (detector [item]) = Some [0]) by reflexivity.
  assert (H2 : [0] !! 0%nat = Some 0) by reflexivity.
  assert (H3 : forall k', (k' < 0)%nat -> [0] !! k' <> Some 0) by (intros; lia).
  assert (H4 : rects (detector [item]) !! 0%nat = Some (0, 0, 2, 2)%Q)
    by reflexivity.
  assert (H5 : 1 ∉ [0]).
  { intros Hin. apply list_elem_of_singleton in Hin. discriminate. }
  split; [exact H1 |]. split; [exact H2 |]. split; [exact H3 |].
  split; [exact H4 |]. split; [exact H5 |].
  exact (crop_and_resize_tensor_face_single nearest item (2, 2)%nat detector
           [0] 0 0 0 2 2 H1 H2 H3 H4 H5).
Defined.

Lemma crop_and_resize_tensor_face_recheck_witness :
  let first := [[[1; 2]; [3; 4]]] in
  let last_ := [[[5; 6]; [7; 8]]] in
  let detector := fun f : frame Z =>
    if (length f =? 2)%nat
    then {| image_ids := Some [0; 1]; rects := [(0, 0, 2, 2); (0, 0, 2, 2)]%Q |}
    else {| image_ids := None; rects := [] |} in
  image_ids (detector [first; last_]) = Some [0; 1] /\
  [0; 1] !! 0%nat = Some 0 /\
  (forall k', (k' < 0)%nat -> [0; 1] !! k' <> Some 0) /\
  rects (detector [first; last_]) !! 0%nat = Some (0, 0, 2, 2)%Q /\
  [0; 1] !! 1%nat = Some 1 /\
  (forall k', (k' < 1)%nat -> [0; 1] !! k' <> Some 1) /\
  rects (detector [first; last_]) !! 1%nat = Some (0, 0, 2, 2)%Q /\
  crop_and_resize_tensor_face nearest (first :: [] ++ [last_]) (2, 2)%nat true
    (Some detector) = Raise RuntimeError.
Proof.
  intros first last_ detector.
  assert (H1 : image_ids (detector [first; last_]) = Some [0; 1]) by reflexivity.
  assert (H2 : [0; 1] !! 0%nat = Some 0) by reflexivity.
  assert (H3 : forall k', (k' < 0)%nat -> [0; 1] !! k' <> Some 0) by (intros; lia).
  assert (H4 : rects (detector [first; last_]) !! 0%nat = Some (0, 0, 2, 2)%Q)
    by reflexivity.
  assert (H5 : [0; 1] !! 1%nat = Some 1) by reflexivity.
  assert (H6 : forall k', (k' < 1)%nat -> [0; 1] !! k' <> Some 1).
  { intros k' Hk'. assert (k' = 0%nat) as -> by lia. discriminate. }
  assert (H7 : rects (detector [first; last_]) !! 1%nat = Some (0, 0, 2, 2)%Q)
    by reflexivity.
  split; [exact H1 |]. split; [exact H2 |]. split; [exact H3 |].
  split; [exact H4 |]. split; [exact H5 |]. split; [exact H6 |].
  split; [exact H7 |].
  exact (crop_and_resize_tensor_face_recheck nearest first last_ [] (2, 2)%nat
           detector [0; 1] 0 1 0 0 2 2 (0, 0, 2, 2)%Q H1 H2 H3 H4 H5 H6 H7).
Defined.

(** ** The file name of a checkpoint path *)

Section PathFacts.
Local Open Scope string_scope.

Lemma string_app_assoc (s1 s2 s3 : string) : (s1 ++ s2) ++ s3 = s1 ++ (s2 ++ s3).
Proof.
  induction s1 as [| c s1 IH]; [reflexivity |].
  change (String c ((s1 ++ s2) ++ s3) = String c (s1 ++ (s2 ++ s3))).
  now rewrite IH.
Qed.

Lemma string_app_nil_r (s : string) : s ++ "" = s.
Proof.
  induction s as [| c s IH]; [reflexivity |].
  change (String c (s ++ "") = String c s). now rewrite IH.
Qed.

Lemma chars_app (s1 s2 : string) :
  String.list_ascii_of_string (s1 ++ s2) =
  (String.list_ascii_of_string s1 ++ String.list_ascii_of_string s2)%list.
Proof.
  induction s1 as [| c s1 IH]; [reflexivity |].
  change (c :: String.list_ascii_of_string (s1 ++ s2) =
          c :: (String.list_ascii_of_string s1 ++ String.list_ascii_of_string s2)%list).
  now rewrite IH.
Qed.

Lemma base_path_from_spec (path : string) :
  forall current : string,
    ~ In slash (String.list_ascii_of_string current) ->
    exists dir,
      current ++ path = dir ++ base_path_from current path /\
      ~ In slash (String.list_ascii_of_string (base_path_from current path)) /\
      (dir = "" \/ exists d, dir = d ++ String slash "").
Proof.
  induction path as [| ch rest IH]; intros current Hcur; cbn [base_path_from].
  - exists "". rewrite string_app_nil_r. split; [reflexivity |].
    split; [exact Hcur | now left].
  - destruct (Ascii.eqb_spec ch slash) as [-> | Hne].
    + destruct (IH "") as (dir & Hdir & Hno & Hend); [intros [] |].
      change ("" ++ rest) with rest in Hdir.
      exists (current ++ String slash dir). split; [| split; [exact Hno |]].
      * rewrite string_app_assoc.
        change (String slash dir ++ base_path_from "" rest)
          with (String slash (dir ++ base_path_from "" rest)).
        now rewrite <- Hdir.
      * right. destruct Hend as [-> | [d ->]].
        -- now exists current.
        -- exists (current ++ String slash d).
           rewrite string_app_assoc. reflexivity.
    + destruct (IH (current ++ String ch "")) as (dir & Hdir & Hno & Hend).
      { rewrite chars_app. intros [Hin | [Heq | []]]%in_app_or; [tauto | congruence]. }
      exists dir. split; [| split; [exact Hno | exact Hend]].
      rewrite <- Hdir, string_app_assoc. reflexivity.
Qed.

(** X27: the file name that [get_checkpoint] loads after a download,
    [path.split("/")[-1]], contains no ["/"] and is what follows the last
    ["/"] of the path: the path is a directory part, empty or ending in
    ["/"], followed by it. *)
Theorem base_path_last_component (path : string) :
  exists dir,
    path = dir ++ base_path path /\
    ~ In slash (String.list_ascii_of_string (base_path path)) /\
    (dir = "" \/ exists d, dir = d ++ String slash "").
Proof.
  destruct (base_path_from_spec path "") as (dir & Hdir & Hno & Hend);
    [intros [] |].
  exists dir. split; [exact Hdir | split; [exact Hno | exact Hend]].
Qed.
End PathFacts.
